(** * The blur benchmark harness of labs/module9/C/Async/main.cpp

    A shallow embedding of [main]: the process state is threaded through a
    small state-and-fault monad, every call that leaves [main] (the image
    wrapper, the three blur variants, the OpenMP clock, stdio) is recorded in a
    trace, and the machine integers of the source ([int i] against the [long]
    sample count) keep their two's-complement wrap-around. *)

From stdpp Require Import base list strings list_numbers.
From Stdlib Require Import ZArith PrimFloat.

Open Scope Z_scope.

(** ** Machine integers *)

(** A [bits]-wide signed integer holding the mathematical value [x]. *)
Definition wrap (bits x : Z) : Z :=
  (x + 2 ^ (bits - 1)) mod 2 ^ bits - 2 ^ (bits - 1).

Definition INT_MAX : Z := 2147483647.
Definition INT_MIN : Z := -2147483648.
Definition LONG_MAX : Z := 9223372036854775807.

(** [int] arithmetic (the loop counter [i]) and [long] arithmetic (the
    geometry [w], [h], [ch] and the sample count [w*h*ch]). *)
Definition int_wrap : Z -> Z := wrap 32.
Definition long_wrap : Z -> Z := wrap 64.
Definition long_mul (a b : Z) : Z := long_wrap (a * b).

(** ** The data the harness handles *)

(** An image buffer is a flat sequence of unsigned 8-bit samples. *)
Abbreviation buffer := (list Z).

(** What [readImage] hands back: the wrapper-owned pixel buffer and, through
    the reference parameters, the geometry. *)
Record image := Image {
  pixels : buffer;
  width : Z;
  height : Z;
  channels : Z
}.

(** The three [extern "C"] blur entry points. *)
Inductive variant := Blur5 | Blur5_serial | Blur5_parallel.

(** The four buffers [main] holds pointers to. *)
Inductive buf := Data | Output1 | Output2 | Output3.

Global Instance variant_eq_dec : EqDecision variant.
Proof. solve_decision. Defined.
Global Instance buf_eq_dec : EqDecision buf.
Proof. solve_decision. Defined.

(** A variadic argument of a [printf] call: a [char*] (possibly null) for
    [%s], a [double] for [%.4f]. *)
Inductive arg :=
| AStr (s : option string)
| ADouble (d : float).

(** One call of [printf]/[fprintf]: the format string and its arguments. *)
Record printf_call := Printf { fmt : string; args : list arg }.

Definition LF : string := String (Ascii.ascii_of_nat 10) EmptyString.

(** Everything [main] does that is visible outside its own locals. *)
Inductive event :=
| EvReadImage (path : string)
| EvNew (b : buf) (n : Z)
| EvCall (v : variant) (src dst : buf) (w h ch : Z)
| EvWtime
| EvStdout (p : printf_call)
| EvStderr (p : printf_call)
| EvLoad (b : buf) (i : Z)
| EvMemcpy (dst src : buf) (n : Z)
| EvWriteImage (path : string)
| EvDelete (b : buf).

(** Ways the process ends without returning from [main]. *)
Inductive fault :=
| DecodeError                      (* readImage could not load the input *)
| EncodeError                      (* writeImage could not store the output *)
| BadAlloc                         (* new[] of a negative length throws *)
| NullPointer                      (* use of a pointer that holds no object *)
| OutOfBounds (b : buf) (i : Z)    (* access outside the extent of [b] *)
| OutOfFuel.                       (* the model's loop bound was too small *)

Inductive outcome (A : Type) :=
| Ret (a : A)
| Fault (f : fault).
Arguments Ret {A} a.
Arguments Fault {A} f.

Record Heap := MkHeap {
  h_data : option buffer;
  h_output1 : option buffer;
  h_output2 : option buffer;
  h_output3 : option buffer
}.

Definition heap_get (hp : Heap) (b : buf) : option buffer :=
  match b with
  | Data => h_data hp
  | Output1 => h_output1 hp
  | Output2 => h_output2 hp
  | Output3 => h_output3 hp
  end.

Definition heap_set (hp : Heap) (b : buf) (o : option buffer) : Heap :=
  match b with
  | Data => MkHeap o (h_output1 hp) (h_output2 hp) (h_output3 hp)
  | Output1 => MkHeap (h_data hp) o (h_output2 hp) (h_output3 hp)
  | Output2 => MkHeap (h_data hp) (h_output1 hp) o (h_output3 hp)
  | Output3 => MkHeap (h_data hp) (h_output1 hp) (h_output2 hp) o
  end.

(** The process state: the heap, the trace so far, the geometry of the image
    the wrapper holds, the files written, and how often the clock was read. *)
Record World := MkWorld {
  heap : Heap;
  trace : list event;
  loaded : option (Z * Z * Z);
  files : list (string * image);
  ticks : nat
}.

Definition init_world : World :=
  MkWorld (MkHeap None None None None) [] None [] 0.

Definition set_heap (st : World) (hp : Heap) : World :=
  MkWorld hp (trace st) (loaded st) (files st) (ticks st).

Definition emit (e : event) (st : World) : World :=
  MkWorld (heap st) (trace st ++ [e]) (loaded st) (files st) (ticks st).

(** ** The monad: state that survives a fault *)

Definition M (A : Type) : Type := World -> World * outcome A.

Definition ret {A} (a : A) : M A := fun st => (st, Ret a).

Definition bind {A B} (m : M A) (k : A -> M B) : M B :=
  fun st =>
    match m st with
    | (st', Ret a) => k a st'
    | (st', Fault f) => (st', Fault f)
    end.

Definition raise {A} (f : fault) : M A := fun st => (st, Fault f).

Definition log (e : event) : M unit := fun st => (emit e st, Ret tt).

Global Instance M_ret : MRet M := @ret.
Global Instance M_bind : MBind M := fun A B k m => bind m k.

(** ** Projections of a trace *)

Definition stdout_of (tr : list event) : list printf_call :=
  omap (fun e => match e with EvStdout p => Some p | _ => None end) tr.

Definition stderr_of (tr : list event) : list printf_call :=
  omap (fun e => match e with EvStderr p => Some p | _ => None end) tr.

(** The calls of blur variants with their destination, in order. *)
Definition calls_of (tr : list event) : list (variant * buf) :=
  omap (fun e => match e with EvCall v _ dst _ _ _ => Some (v, dst) | _ => None end) tr.

(** The element reads of the comparison loop, in order. *)
Definition loads_of (tr : list event) : list (buf * Z) :=
  omap (fun e => match e with EvLoad b i => Some (b, i) | _ => None end) tr.

(** Calls of variants and clock reads only: what is timed and what is not. *)
Definition timeline_of (tr : list event) : list event :=
  omap (fun e => match e with EvCall _ _ _ _ _ _ | EvWtime => Some e | _ => None end) tr.

(** ** The collaborators and the primitive operations *)

Section Harness.

(** Modelled from the spec: imageWrapper's [readImage], the external load
    collaborator [load(path) -> (pixels, width, height, channels)]; [None]
    is its fatal [DecodeError]. *)
Variable load : string -> option image.

(** Modelled from the spec: whether imageWrapper's [writeImage], the
    external store collaborator, can write the destination; [false] is its
    fatal [EncodeError]. *)
Variable writable : string -> bool.

(** The blur entry points, declared [extern "C"] and linked in from
    elsewhere, are a parameter. A call reads the source, may read and
    overwrite the destination, and leaves the extent of the destination as
    it is: [blur v src dst w h ch i] is the sample at index [i] of the
    destination after [v(src, dst, w, h, ch)] returns. *)
Variable blur : variant -> buffer -> buffer -> Z -> Z -> Z -> Z -> Z.

(** The successive readings of [omp_get_wtime()]. *)
Variable wtime : nat -> float.

(** The indeterminate contents of freshly allocated storage. *)
Variable junk : buf -> Z -> Z.

(** [argv[k]], a null pointer past the end. *)
Definition argv_at (argv : list string) (k : nat) : option string := argv !! k.

(** The object a pointer of [main] points to. *)
Definition deref (b : buf) : M buffer := fun st =>
  match heap_get (heap st) b with
  | Some l => (st, Ret l)
  | None => (st, Fault NullPointer)
  end.

(** Make [b] point to [o] ([None]: to nothing). *)
Definition poke (b : buf) (o : option buffer) : M unit := fun st =>
  (set_heap st (heap_set (heap st) b o), Ret tt).

(** The wrapper's own record of the geometry of the image it holds. *)
Definition set_loaded (g : Z * Z * Z) : M unit := fun st =>
  (MkWorld (heap st) (trace st) (Some g) (files st) (ticks st), Ret tt).

(** The geometry the wrapper recorded, if it holds an image. *)
Definition get_loaded : M (Z * Z * Z) := fun st =>
  match loaded st with
  | Some g => (st, Ret g)
  | None => (st, Fault NullPointer)
  end.

(** The file system gains the image [img] under the path [p]. *)
Definition put_file (p : string) (img : image) : M unit := fun st =>
  (MkWorld (heap st) (trace st) (loaded st) ((p, img) :: files st) (ticks st), Ret tt).

(** Modelled from the spec: imageWrapper's [readImage], whose body is
    missing from the sources, as [unsigned char* data = readImage(path, w, h,
    ch)] uses it: it loads the image, keeps it, and hands back the pixel
    buffer and the geometry. *)
Definition readImage (path : option string) : M (Z * Z * Z) :=
  match path return M (Z * Z * Z) with
  | None => raise NullPointer
  | Some p =>
      log (EvReadImage p);;
      match load p return M (Z * Z * Z) with
      | None => raise DecodeError
      | Some img =>
          let g := (width img, height img, channels img) in
          poke Data (Some (pixels img));;
          set_loaded g;;
          ret g
      end
  end.

(** Storage of [n] samples nobody has written yet. *)
Definition fresh (b : buf) (n : Z) : buffer := junk b <$> seqZ 0 n.

(** [b = new unsigned char[n]] with [n] a [long]: a negative length throws
    [std::bad_array_new_length], which nothing catches. Storage for a
    length that is not negative is taken to be available. *)
Definition new_uchar (b : buf) (n : Z) : M unit :=
  log (EvNew b n);;
  if n <? 0 then raise BadAlloc
  else poke b (Some (fresh b n)).

(** The destination [d] once [v(s, d, w, h, ch)] has returned. *)
Definition after_call (v : variant) (s d : buffer) (w h ch : Z) : buffer :=
  blur v s d w h ch <$> seqZ 0 (Z.of_nat (length d)).

(** [v(src, dst, w, h, ch)] *)
Definition call (v : variant) (src dst : buf) (w h ch : Z) : M unit :=
  log (EvCall v src dst w h ch);;
  s ← deref src;
  d ← deref dst;
  poke dst (Some (after_call v s d w h ch)).

(** [omp_get_wtime()] *)
Definition omp_get_wtime : M float := fun st =>
  (MkWorld (heap st) (trace st ++ [EvWtime]) (loaded st) (files st) (S (ticks st)),
   Ret (wtime (ticks st))).

(** [printf(f, a...)] and [fprintf(stderr, f, a...)] *)
Definition printf (f : string) (a : list arg) : M unit := log (EvStdout (Printf f a)).
Definition fprintf_stderr (f : string) (a : list arg) : M unit := log (EvStderr (Printf f a)).

(** [b[i]] as an rvalue. *)
Definition load_uchar (b : buf) (i : Z) : M Z :=
  log (EvLoad b i);;
  l ← deref b;
  if i <? 0 then raise (OutOfBounds b i)
  else match l !! Z.to_nat i return M Z with
       | Some x => ret x
       | None => raise (OutOfBounds b i)
       end.

(** [memcpy(dst, src, n)] *)
Definition memcpy (dst src : buf) (n : Z) : M unit :=
  log (EvMemcpy dst src n);;
  s ← deref src;
  d ← deref dst;
  if Z.of_nat (length s) <? n then raise (OutOfBounds src (Z.of_nat (length s)))
  else if Z.of_nat (length d) <? n then raise (OutOfBounds dst (Z.of_nat (length d)))
  else poke dst (Some (take (Z.to_nat n) s ++ drop (Z.to_nat n) d)).

(** Modelled from the spec: imageWrapper's [writeImage], whose body is
    missing from the sources, as [writeImage(path)] uses it: it takes no
    pixels, so what the wrapper stores is the image it loaded, whose pixel
    buffer is the very [data] that [main] holds and has just overwritten. *)
Definition writeImage (path : option string) : M unit :=
  match path return M unit with
  | None => raise NullPointer
  | Some p =>
      log (EvWriteImage p);;
      px ← deref Data;
      '(w, h, ch) ← get_loaded;
      if writable p then put_file p (Image px w h ch)
      else raise EncodeError
  end.

(** [delete[] b] *)
Definition delete (b : buf) : M unit :=
  log (EvDelete b);;
  poke b None.

(** ** The comparison loop

    [for(int i = 0; i < w*h*ch; i++) if(output1[i] != output2[i]) {
       success = false; break; }]
    returns the final [success]. [i] is an [int], [n] a [long]: the test
    promotes [i] to [long], the increment wraps at [INT_MAX]. [fuel] bounds
    the number of iterations; [main] passes a bound that is never reached
    ([run_fuel_suffices]). *)
Fixpoint check_loop (fuel : nat) (n i : Z) : M bool :=
  match fuel with
  | O => raise OutOfFuel
  | S fuel' =>
      if i <? n then
        a ← load_uchar Output1 i;
        b ← load_uchar Output2 i;
        if negb (a =? b) then ret false
        else check_loop fuel' n (int_wrap (i + 1))
      else ret true
  end.

(** The count converted to [size_t] for [memcpy]. *)
Definition to_size_t (x : Z) : Z := x mod 2 ^ 64.

(** ** [main] *)
Definition main (argv : list string) : M Z :=
  if Z.of_nat (length argv) <? 3 then
    fprintf_stderr ("Usage: %s inFilename outFilename" +:+ LF) [AStr (argv_at argv 0)];;
    ret (-1)
  else
    '(w, h, ch) ← readImage (argv_at argv 1);
    let n := long_mul (long_mul w h) ch in
    new_uchar Output1 n;;
    new_uchar Output2 n;;
    new_uchar Output3 n;;
    call Blur5 Data Output3 w h ch;;
    st ← omp_get_wtime;
    call Blur5 Data Output1 w h ch;;
    t ← omp_get_wtime;
    printf ("Time taken for blur5: %.4f seconds" +:+ LF) [ADouble (t - st)];;
    printf ("Running serial and baseline parallel for comparison..." +:+ LF) [];;
    st ← omp_get_wtime;
    call Blur5_serial Data Output2 w h ch;;
    t ← omp_get_wtime;
    printf ("Time taken for serial blur5: %.4f seconds" +:+ LF) [ADouble (t - st)];;
    st ← omp_get_wtime;
    call Blur5_parallel Data Output3 w h ch;;
    t ← omp_get_wtime;
    printf ("Time taken for baseline parallel blur5: %.4f seconds" +:+ LF) [ADouble (t - st)];;
    printf ("Checking results for comparison..." +:+ LF) [];;
    success ← check_loop (S (Z.to_nat n)) n 0;
    (if success : bool return M unit
     then printf ("Code results are correct." +:+ LF) []
     else printf ("Code results are incorrect." +:+ LF) []);;
    memcpy Data Output1 (to_size_t (n * 1));;
    writeImage (argv_at argv 2);;
    delete Output1;;
    delete Output2;;
    delete Output3;;
    ret 0.

(** A run of the process from its start. *)
Definition run (argv : list string) : World * outcome Z := main argv init_world.

End Harness.

(** ** Machine-integer facts *)

Lemma int_wrap_small (x : Z) : INT_MIN <= x <= INT_MAX -> int_wrap x = x.
Proof.
  unfold int_wrap, wrap, INT_MIN, INT_MAX. intros H.
  change (2 ^ (32 - 1)) with 2147483648. change (2 ^ 32) with 4294967296.
  rewrite Z.mod_small; lia.
Qed.

Lemma int_wrap_overflow : int_wrap (INT_MAX + 1) = INT_MIN.
Proof. reflexivity. Qed.

Lemma long_wrap_small (x : Z) : - LONG_MAX - 1 <= x <= LONG_MAX -> long_wrap x = x.
Proof.
  unfold long_wrap, wrap, LONG_MAX. intros H.
  change (2 ^ (64 - 1)) with 9223372036854775808.
  change (2 ^ 64) with 18446744073709551616.
  rewrite Z.mod_small; lia.
Qed.

(** ** Running the primitives *)

Lemma bind_run {A B} (m : M A) (k : A -> M B) (st : World) :
  (m ≫= k) st =
  match m st with
  | (st', Ret a) => k a st'
  | (st', Fault f) => (st', Fault f)
  end.
Proof. reflexivity. Qed.

(** The state after more events were appended to the trace. *)
Definition extend (st : World) (evs : list event) : World :=
  MkWorld (heap st) (trace st ++ evs) (loaded st) (files st) (ticks st).

Lemma extend_nil st : extend st [] = st.
Proof. destruct st; unfold extend; simpl. by rewrite app_nil_r. Qed.

Lemma extend_extend st e1 e2 : extend (extend st e1) e2 = extend st (e1 ++ e2).
Proof. unfold extend; simpl. by rewrite app_assoc. Qed.

Lemma load_uchar_ok (b : buf) (i x : Z) (l : buffer) (st : World) :
  heap_get (heap st) b = Some l -> 0 <= i -> l !! Z.to_nat i = Some x ->
  load_uchar b i st = (extend st [EvLoad b i], Ret x).
Proof.
  intros Hb Hi Hx. unfold load_uchar. rewrite bind_run. simpl.
  rewrite bind_run. unfold deref at 1. simpl. rewrite Hb.
  destruct (Z.ltb_spec i 0); [lia|]. by rewrite Hx.
Qed.

Lemma load_uchar_negative (b : buf) (i : Z) (l : buffer) (st : World) :
  heap_get (heap st) b = Some l -> i < 0 ->
  load_uchar b i st = (extend st [EvLoad b i], Fault (OutOfBounds b i)).
Proof.
  intros Hb Hi. unfold load_uchar. rewrite bind_run. simpl.
  rewrite bind_run. unfold deref at 1. simpl. rewrite Hb.
  destruct (Z.ltb_spec i 0); [done|lia].
Qed.

(** ** The comparison loop on two buffers of [n] samples *)

(** The reads of one iteration, and of the iterations [i], ..., [k-1]. *)
Definition pair_loads (j : Z) : list event := [EvLoad Output1 j; EvLoad Output2 j].
Definition scan_loads (i k : Z) : list event := seqZ i (k - i) ≫= pair_loads.

Lemma scan_loads_nil i : scan_loads i i = [].
Proof. unfold scan_loads. by rewrite Z.sub_diag. Qed.

Lemma scan_loads_cons i k :
  i < k -> scan_loads i k = pair_loads i ++ scan_loads (i + 1) k.
Proof.
  intros H. unfold scan_loads. rewrite seqZ_cons by lia.
  replace (Z.pred (k - i)) with (k - (i + 1)) by lia.
  by replace (Z.succ i) with (i + 1) by lia.
Qed.

Section Comparison.

Variables (o1 o2 : buffer) (n : Z).
Hypothesis len1 : Z.of_nat (length o1) = n.
Hypothesis len2 : Z.of_nat (length o2) = n.

(** Samples [i], ..., [k-1] of the two buffers are equal. *)
Definition agree (i k : Z) : Prop :=
  forall j, i <= j < k -> o1 !! Z.to_nat j = o2 !! Z.to_nat j.

(** The three ways the loop ends when started at [i] with the samples
    below [i] out of the picture: at the first mismatch [k], after the
    last sample, or when the [int] counter wraps past [INT_MAX] and
    [output1[INT_MIN]] is read. *)
Inductive loop_end (i : Z) : list event -> outcome bool -> Prop :=
| end_mismatch k :
    i <= k < n -> k <= INT_MAX -> agree i k ->
    o1 !! Z.to_nat k <> o2 !! Z.to_nat k ->
    loop_end i (scan_loads i (k + 1)) (Ret false)
| end_all_equal :
    n <= INT_MAX -> agree i n ->
    loop_end i (scan_loads i n) (Ret true)
| end_wrapped :
    INT_MAX < n -> agree i (INT_MAX + 1) ->
    loop_end i (scan_loads i (INT_MAX + 1) ++ [EvLoad Output1 INT_MIN])
             (Fault (OutOfBounds Output1 INT_MIN)).

Lemma agree_step i k :
  i < k -> o1 !! Z.to_nat i = o2 !! Z.to_nat i -> agree (i + 1) k -> agree i k.
Proof.
  intros Hik Hi H j Hj. destruct (decide (j = i)) as [->|]; [done|].
  apply H. lia.
Qed.

Lemma loop_end_step i evs r :
  i < n -> i < INT_MAX -> o1 !! Z.to_nat i = o2 !! Z.to_nat i ->
  loop_end (i + 1) evs r -> loop_end i (pair_loads i ++ evs) r.
Proof.
  intros Hin Him Hi H. destruct H as [k Hk Hkm Hag Hne|Hn Hag|Hn Hag].
  - rewrite <- scan_loads_cons by lia. apply end_mismatch; try lia; try done.
    apply agree_step; [lia|done|done].
  - rewrite <- scan_loads_cons by lia. apply end_all_equal; [done|].
    apply agree_step; [lia|done|done].
  - rewrite app_assoc, <- scan_loads_cons by lia. apply end_wrapped; [done|].
    apply agree_step; [lia|done|done].
Qed.

Lemma check_loop_run (fuel : nat) :
  forall (i : Z) (st : World),
    heap_get (heap st) Output1 = Some o1 ->
    heap_get (heap st) Output2 = Some o2 ->
    0 <= i <= n -> i <= INT_MAX ->
    n - i < Z.of_nat fuel ->
    exists evs r, check_loop fuel n i st = (extend st evs, r) /\ loop_end i evs r.
Proof.
  induction fuel as [|fuel IH]; intros i st H1 H2 Hi Him Hfuel; [lia|].
  simpl check_loop. destruct (Z.ltb_spec i n) as [Hlt|Hge].
  - destruct (lookup_lt_is_Some_2 o1 (Z.to_nat i)) as [a Ha]; [lia|].
    destruct (lookup_lt_is_Some_2 o2 (Z.to_nat i)) as [b Hb]; [lia|].
    rewrite bind_run, (load_uchar_ok _ _ a o1) by (done || lia).
    rewrite bind_run, (load_uchar_ok _ _ b o2) by (done || lia).
    rewrite extend_extend. change ([EvLoad Output1 i] ++ [EvLoad Output2 i]) with (pair_loads i).
    destruct (Z.eqb_spec a b) as [->|Hne]; cbn [negb].
    + destruct (decide (i = INT_MAX)) as [->|Hmax].
      * (* the counter wraps *)
        rewrite int_wrap_overflow. destruct fuel as [|fuel]; [lia|].
        simpl check_loop. destruct (Z.ltb_spec INT_MIN n) as [_|Hbad];
          [|unfold INT_MIN, INT_MAX in *; lia].
        rewrite bind_run, (load_uchar_negative _ _ o1) by done.
        rewrite extend_extend. eexists _, _. split; [done|].
        replace (pair_loads INT_MAX) with (scan_loads INT_MAX (INT_MAX + 1)).
        -- apply end_wrapped; [done|]. intros j Hj. assert (j = INT_MAX) as -> by lia.
           by rewrite Ha, Hb.
        -- rewrite scan_loads_cons, scan_loads_nil by lia. by rewrite app_nil_r.
      * rewrite int_wrap_small by (unfold INT_MIN; lia).
        destruct (IH (i + 1) (extend st (pair_loads i))) as (evs & r & Hrun & Hend);
          try done; try lia.
        rewrite Hrun, extend_extend. eexists _, _. split; [done|].
        apply loop_end_step; try done; try lia. by rewrite Ha, Hb.
    + exists (pair_loads i), (Ret false). split; [done|].
      replace (pair_loads i) with (scan_loads i (i + 1)).
      * apply end_mismatch; try lia; [intros j Hj; lia|].
        rewrite Ha, Hb. congruence.
      * rewrite scan_loads_cons, scan_loads_nil by lia. by rewrite app_nil_r.
  - assert (i = n) as -> by lia.
    exists [], (Ret true). rewrite extend_nil. split; [done|].
    rewrite <- (scan_loads_nil n). apply end_all_equal; [lia|].
    intros j Hj. lia.
Qed.

End Comparison.

(** One step of symbolic execution of a monadic program. *)
Ltac run_step :=
  unfold new_uchar, call, printf, fprintf_stderr, writeImage, delete;
  unfold mbind, mret, M_bind, M_ret;
  cbn [mbind mret M_bind M_ret bind ret raise log emit extend poke set_heap heap_set
       heap_get deref set_loaded get_loaded put_file omp_get_wtime
       heap trace loaded files ticks init_world
       h_data h_output1 h_output2 h_output3 app fst snd].

(** The same, with the state updates written out as records. *)
Ltac run_flat :=
  run_step; unfold ret, raise, emit, extend, set_heap, poke, put_file;
  cbn [heap_set heap_get heap trace loaded files ticks
       h_data h_output1 h_output2 h_output3 app fst snd].

Lemma memcpy_run (dst src : buf) (n : Z) (s d : buffer) (st : World) :
  heap_get (heap st) src = Some s -> heap_get (heap st) dst = Some d ->
  memcpy dst src n st =
  if Z.of_nat (length s) <? n then
    (emit (EvMemcpy dst src n) st, Fault (OutOfBounds src (Z.of_nat (length s))))
  else if Z.of_nat (length d) <? n then
    (emit (EvMemcpy dst src n) st, Fault (OutOfBounds dst (Z.of_nat (length d))))
  else
    (set_heap (emit (EvMemcpy dst src n) st)
              (heap_set (heap st) dst (Some (take (Z.to_nat n) s ++ drop (Z.to_nat n) d))),
     Ret tt).
Proof.
  intros Hs Hd. unfold memcpy. rewrite bind_run. cbn [log].
  rewrite bind_run. unfold deref at 1. cbn [heap emit]. rewrite Hs.
  rewrite bind_run. unfold deref at 1. cbn [heap emit]. rewrite Hd.
  destruct (Z.of_nat (length s) <? n); [done|].
  destruct (Z.of_nat (length d) <? n); done.
Qed.

(** ** What the loop leaves in the trace *)

(** The element reads of iterations [i], ..., [k-1], as [loads_of] shows them. *)
Definition scan_pairs (i k : Z) : list (buf * Z) :=
  seqZ i (k - i) ≫= fun j => [(Output1, j); (Output2, j)].

(** Events that are reads of [output1] or [output2] and nothing else. *)
Definition only_loads (evs : list event) : Prop :=
  Forall (fun e => exists j, e = EvLoad Output1 j \/ e = EvLoad Output2 j) evs.

Lemma scan_loads_only_loads i k : only_loads (scan_loads i k).
Proof.
  unfold only_loads, scan_loads. apply Forall_forall. intros e He.
  apply list_elem_of_bind in He as (j & He & _). unfold pair_loads in He.
  apply elem_of_cons in He as [->|He]; [eauto|].
  apply list_elem_of_singleton in He as ->. eauto.
Qed.

Lemma loop_end_only_loads o1 o2 n i evs r : loop_end o1 o2 n i evs r -> only_loads evs.
Proof.
  destruct 1; try apply scan_loads_only_loads.
  apply Forall_app. split; [apply scan_loads_only_loads|].
  apply Forall_singleton. eauto.
Qed.

Lemma only_loads_stdout evs : only_loads evs -> stdout_of evs = [].
Proof. induction 1 as [|e evs (j & [->| ->]) _ IH]; simpl; auto. Qed.

Lemma only_loads_timeline evs : only_loads evs -> timeline_of evs = [].
Proof. induction 1 as [|e evs (j & [->| ->]) _ IH]; simpl; auto. Qed.

Lemma only_loads_buffers evs b j :
  only_loads evs -> (b, j) ∈ loads_of evs -> b = Output1 \/ b = Output2.
Proof.
  intros H Hin. apply list_elem_of_omap in Hin as (e & He & Hb).
  unfold only_loads in H. rewrite Forall_forall in H.
  destruct (H e He) as (k & [->| ->]); simpl in Hb; inversion Hb; auto.
Qed.

Lemma loads_of_scan i k : loads_of (scan_loads i k) = scan_pairs i k.
Proof.
  unfold scan_loads, scan_pairs. induction (seqZ i (k - i)) as [|j l IH]; [done|].
  change ((j :: l) ≫= pair_loads) with (pair_loads j ++ (l ≫= pair_loads)).
  unfold loads_of in *. rewrite omap_app, IH. reflexivity.
Qed.

(** ** What the three endings of the loop say about the buffers *)

Section Verdicts.

Variables (o1 o2 : buffer) (n : Z).

(** Some sample of the two buffers differs. *)
Definition mismatch : Prop :=
  exists i, 0 <= i < n /\ o1 !! Z.to_nat i <> o2 !! Z.to_nat i.

Lemma loop_end_incorrect evs :
  loop_end o1 o2 n 0 evs (Ret false) ->
  exists k, 0 <= k < n /\ agree o1 o2 0 k /\
            o1 !! Z.to_nat k <> o2 !! Z.to_nat k /\ evs = scan_loads 0 (k + 1).
Proof.
  intros H. remember (Ret false) as r eqn:Hr.
  destruct H as [k Hk Hmax Hag Hne| |]; try discriminate.
  exists k. done.
Qed.

Lemma loop_end_mismatch evs : loop_end o1 o2 n 0 evs (Ret false) -> mismatch.
Proof. intros H. apply loop_end_incorrect in H as (k & Hk & _ & Hne & _). by exists k. Qed.

Lemma loop_end_correct evs :
  loop_end o1 o2 n 0 evs (Ret true) -> agree o1 o2 0 n /\ n <= INT_MAX /\ evs = scan_loads 0 n.
Proof.
  intros H. remember (Ret true) as r eqn:Hr.
  destruct H; try discriminate. done.
Qed.

Lemma agree_no_mismatch : agree o1 o2 0 n -> ~ mismatch.
Proof. intros H (i & Hi & Hne). apply Hne, H. lia. Qed.

Lemma loop_end_first_mismatch evs r k :
  loop_end o1 o2 n 0 evs r ->
  0 <= k < n -> k <= INT_MAX -> agree o1 o2 0 k ->
  o1 !! Z.to_nat k <> o2 !! Z.to_nat k ->
  r = Ret false /\ evs = scan_loads 0 (k + 1).
Proof.
  intros Hend Hk Hmax Hag Hne. destruct Hend as [k' Hk' Hmax' Hag' Hne'|Hn Hall|Hn Hall].
  - assert (k' = k) as ->; [|done].
    destruct (Z.lt_trichotomy k' k) as [Hlt|[Heq|Hgt]]; [|done|].
    + exfalso. apply Hne', Hag. lia.
    + exfalso. apply Hne, Hag'. lia.
  - exfalso. apply Hne, Hall. lia.
  - exfalso. apply Hne, Hall. lia.
Qed.

Lemma loop_end_empty evs r :
  n = 0 -> loop_end o1 o2 n 0 evs r -> r = Ret true /\ evs = [].
Proof.
  intros -> H. destruct H as [k Hk _ _ _|_ _|Hn _].
  - lia.
  - by rewrite scan_loads_nil.
  - unfold INT_MAX in Hn. lia.
Qed.


Lemma loop_end_fault evs f :
  loop_end o1 o2 n 0 evs (Fault f) -> f = OutOfBounds Output1 INT_MIN.
Proof.
  intros H. remember (Fault f) as r eqn:Hr.
  destruct H; try discriminate. by injection Hr as <-.
Qed.

Lemma loop_end_int_range evs r :
  loop_end o1 o2 n 0 evs r -> n <= INT_MAX -> exists v, r = Ret v.
Proof. destruct 1; eauto. lia. Qed.

End Verdicts.

(** ** Runs that differ only in what lands in [output3] *)

(** Two states that agree on everything but the contents of [output3]
    (its extent included in what they agree on). *)
Definition low_eq (st st' : World) : Prop :=
  trace st = trace st' /\ loaded st = loaded st' /\ files st = files st' /\
  ticks st = ticks st' /\
  h_data (heap st) = h_data (heap st') /\
  h_output1 (heap st) = h_output1 (heap st') /\
  h_output2 (heap st) = h_output2 (heap st') /\
  length <$> h_output3 (heap st) = length <$> h_output3 (heap st').

(** Two computations that take such states to such states, with the same
    result. *)
Definition related {A} (m m' : M A) : Prop :=
  forall st st', low_eq st st' ->
    low_eq (m st).1 (m' st').1 /\ (m st).2 = (m' st').2.

Lemma low_eq_refl st : low_eq st st.
Proof. by repeat split. Qed.

Lemma related_ret {A} (a : A) : related (mret a) (mret a).
Proof. by intros st st' H. Qed.

Lemma related_raise {A} (f : fault) : related (raise (A:=A) f) (raise f).
Proof. by intros st st' H. Qed.

Lemma related_bind {A B} (m m' : M A) (k k' : A -> M B) :
  related m m' -> (forall a, related (k a) (k' a)) -> related (m ≫= k) (m' ≫= k').
Proof.
  intros Hm Hk st st' H. rewrite !bind_run.
  destruct (Hm st st' H) as [H1 H2].
  destruct (m st) as [st1 [a|f]], (m' st') as [st1' [a'|f']]; simpl in *; simplify_eq.
  - by apply Hk.
  - done.
Qed.

Ltac low_start :=
  intros [[? ? ? ?] ? ? ? ?] [[? ? ? ?] ? ? ? ?] (?&?&?&?&?&?&?&?);
  simpl in *; simplify_eq;
  cbv [readImage new_uchar call after_call load_uchar memcpy writeImage delete
       omp_get_wtime mbind mret M_bind M_ret bind ret raise log emit deref poke
       set_loaded get_loaded put_file heap_get heap_set set_heap
       heap trace loaded files ticks h_data h_output1 h_output2 h_output3 fst snd].

Ltac low_finish :=
  repeat case_match; simplify_eq/=; repeat split; simpl; try done; try congruence.

Lemma related_log e : related (log e) (log e).
Proof. low_start. low_finish. Qed.

Lemma related_wtime wtime : related (omp_get_wtime wtime) (omp_get_wtime wtime).
Proof. low_start. low_finish. Qed.

Lemma related_readImage load path : related (readImage load path) (readImage load path).
Proof. low_start. low_finish. Qed.

Lemma related_new_uchar junk b n : related (new_uchar junk b n) (new_uchar junk b n).
Proof. low_start. destruct b; low_finish. Qed.

Lemma related_call blur blur' v dst w h ch :
  (dst = Output3 \/ blur v = blur' v) -> dst <> Data ->
  related (call blur v Data dst w h ch) (call blur' v Data dst w h ch).
Proof.
  intros Hv Hdst. low_start.
  destruct dst; try done; destruct Hv as [?|Hv]; try done; try rewrite Hv;
    low_finish.
  all: rewrite !length_fmap, !length_seqZ; congruence.
Qed.

Lemma related_load_uchar b i : b <> Output3 -> related (load_uchar b i) (load_uchar b i).
Proof. intros Hb. low_start. destruct b; try done; low_finish. Qed.

Lemma related_check_loop fuel n : forall i, related (check_loop fuel n i) (check_loop fuel n i).
Proof.
  induction fuel as [|fuel IH]; intros i; simpl; [apply related_raise|].
  destruct (i <? n); [|apply related_ret].
  apply related_bind; [by apply related_load_uchar|]. intros a.
  apply related_bind; [by apply related_load_uchar|]. intros b.
  destruct (negb (a =? b)); [apply related_ret|apply IH].
Qed.

Lemma related_memcpy n : related (memcpy Data Output1 n) (memcpy Data Output1 n).
Proof. low_start. low_finish. Qed.

Lemma related_writeImage writable path :
  related (writeImage writable path) (writeImage writable path).
Proof. low_start. low_finish. Qed.

Lemma related_delete b : related (delete b) (delete b).
Proof. low_start. destruct b; low_finish. Qed.

(** [main] linked against two sets of blur entry points that differ in
    [blur5_parallel] only. *)
Lemma related_main load writable blur blur' wtime junk argv :
  blur Blur5 = blur' Blur5 -> blur Blur5_serial = blur' Blur5_serial ->
  related (main load writable blur wtime junk argv) (main load writable blur' wtime junk argv).
Proof.
  intros H5 Hs. unfold main.
  destruct (Z.of_nat (length argv) <? 3).
  { apply related_bind; [apply related_log|]. intros _. apply related_ret. }
  apply related_bind; [apply related_readImage|]. intros [[w h] ch].
  repeat first
    [ apply related_ret
    | apply related_log
    | apply related_wtime
    | apply related_new_uchar
    | apply related_check_loop
    | apply related_memcpy
    | apply related_writeImage
    | apply related_delete
    | apply related_call; [auto|done]
    | (apply related_bind; [|intros ?])
    | match goal with |- related (if ?b then _ else _) _ => destruct b end ].
Qed.

(** ** How a run of [main] ends *)

Definition usage_line (argv : list string) : printf_call :=
  Printf ("Usage: %s inFilename outFilename" +:+ LF) [AStr (argv !! 0%nat)].

Definition verdict_line (success : bool) : printf_call :=
  if success then Printf ("Code results are correct." +:+ LF) []
  else Printf ("Code results are incorrect." +:+ LF) [].

(** The verdicts printed, in order: [true] for "correct". *)
Definition verdicts_of (tr : list event) : list bool :=
  omap (fun p =>
          if String.eqb (fmt p) ("Code results are correct." +:+ LF) then Some true
          else if String.eqb (fmt p) ("Code results are incorrect." +:+ LF) then Some false
          else None)
       (stdout_of tr).

(** The duration lines printed, in order: the format and the seconds. *)
Definition durations_of (tr : list event) : list (string * float) :=
  omap (fun p => match args p with
                 | [ADouble d] => Some (fmt p, d)
                 | _ => None
                 end)
       (stdout_of tr).

(** What the parent process sees of the value [main] returns. *)
Definition exit_status (r : Z) : Z := r mod 256.

Lemma stdout_of_app tr1 tr2 : stdout_of (tr1 ++ tr2) = stdout_of tr1 ++ stdout_of tr2.
Proof. apply omap_app. Qed.

Lemma verdicts_of_app tr1 tr2 : verdicts_of (tr1 ++ tr2) = verdicts_of tr1 ++ verdicts_of tr2.
Proof. unfold verdicts_of, stdout_of. by rewrite !omap_app. Qed.

Lemma durations_of_app tr1 tr2 : durations_of (tr1 ++ tr2) = durations_of tr1 ++ durations_of tr2.
Proof. unfold durations_of, stdout_of. by rewrite !omap_app. Qed.

Lemma only_loads_verdicts evs : only_loads evs -> verdicts_of evs = [].
Proof. intros H. unfold verdicts_of. by rewrite only_loads_stdout. Qed.

Lemma only_loads_durations evs : only_loads evs -> durations_of evs = [].
Proof. intros H. unfold durations_of. by rewrite only_loads_stdout. Qed.

Lemma verdicts_of_verdict_line v tl :
  stdout_of tl = [] -> verdicts_of (EvStdout (verdict_line v) :: tl) = [v].
Proof. intros H. unfold verdicts_of. simpl. rewrite H. by destruct v. Qed.

(** The blur entry points with [blur5_parallel] replaced by [f]. *)
Definition with_naive (blur : variant -> buffer -> buffer -> Z -> Z -> Z -> Z -> Z)
    (f : buffer -> buffer -> Z -> Z -> Z -> Z -> Z) (v : variant) :=
  match v with
  | Blur5_parallel => f
  | _ => blur v
  end.

(** How often variant [v] was called. *)
Definition invocations (v : variant) (tr : list event) : nat :=
  length (filter (fun c => c.1 = v) (calls_of tr)).

Lemma calls_of_app tr1 tr2 : calls_of (tr1 ++ tr2) = calls_of tr1 ++ calls_of tr2.
Proof. apply omap_app. Qed.

Lemma timeline_of_app tr1 tr2 : timeline_of (tr1 ++ tr2) = timeline_of tr1 ++ timeline_of tr2.
Proof. apply omap_app. Qed.

Lemma loads_of_app tr1 tr2 : loads_of (tr1 ++ tr2) = loads_of tr1 ++ loads_of tr2.
Proof. apply omap_app. Qed.

Lemma only_loads_calls evs : only_loads evs -> calls_of evs = [].
Proof. induction 1 as [|e evs (j & [->| ->]) _ IH]; simpl; auto. Qed.

Section Runs.

Variable load : string -> option image.
Variable writable : string -> bool.
Variable blur : variant -> buffer -> buffer -> Z -> Z -> Z -> Z -> Z.
Variable wtime : nat -> float.
Variable junk : buf -> Z -> Z.

(** [w*h*ch] as the source computes it. *)
Definition nsamples (img : image) : Z :=
  long_mul (long_mul (width img) (height img)) (channels img).

(** The three output buffers when the comparison starts. *)
Definition output1_of (img : image) : buffer :=
  after_call blur Blur5 (pixels img) (fresh junk Output1 (nsamples img))
             (width img) (height img) (channels img).
Definition output2_of (img : image) : buffer :=
  after_call blur Blur5_serial (pixels img) (fresh junk Output2 (nsamples img))
             (width img) (height img) (channels img).
Definition output3_of (img : image) : buffer :=
  after_call blur Blur5_parallel (pixels img)
             (after_call blur Blur5 (pixels img) (fresh junk Output3 (nsamples img))
                         (width img) (height img) (channels img))
             (width img) (height img) (channels img).

(** The seconds between clock readings [k] and [k+1]. *)
Definition duration (k : nat) : float := (wtime (S k) - wtime k)%float.

(** The trace up to the start of the comparison loop. *)
Definition prologue (p : string) (img : image) : list event :=
  let n := nsamples img in
  let w := width img in let h := height img in let ch := channels img in
  [ EvReadImage p; EvNew Output1 n; EvNew Output2 n; EvNew Output3 n;
    EvCall Blur5 Data Output3 w h ch;
    EvWtime; EvCall Blur5 Data Output1 w h ch; EvWtime;
    EvStdout (Printf ("Time taken for blur5: %.4f seconds" +:+ LF) [ADouble (duration 0)]);
    EvStdout (Printf ("Running serial and baseline parallel for comparison..." +:+ LF) []);
    EvWtime; EvCall Blur5_serial Data Output2 w h ch; EvWtime;
    EvStdout (Printf ("Time taken for serial blur5: %.4f seconds" +:+ LF) [ADouble (duration 2)]);
    EvWtime; EvCall Blur5_parallel Data Output3 w h ch; EvWtime;
    EvStdout (Printf ("Time taken for baseline parallel blur5: %.4f seconds" +:+ LF)
                     [ADouble (duration 4)]);
    EvStdout (Printf ("Checking results for comparison..." +:+ LF) []) ].

Definition geometry (img : image) : Z * Z * Z := (width img, height img, channels img).

(** The state when the comparison loop starts. *)
Definition before_check (p : string) (img : image) : World :=
  MkWorld (MkHeap (Some (pixels img)) (Some (output1_of img))
                  (Some (output2_of img)) (Some (output3_of img)))
          (prologue p img) (Some (geometry img)) [] 6.

(** The input buffer once [memcpy] has copied [output1] over it. *)
Definition stored_pixels (img : image) : buffer :=
  take (Z.to_nat (nsamples img)) (output1_of img)
    ++ drop (Z.to_nat (nsamples img)) (pixels img).

Definition stored_image (img : image) : image :=
  Image (stored_pixels img) (width img) (height img) (channels img).

(** Every way a run ends, with the final state written out. *)
Inductive ending (argv : list string) : World -> outcome Z -> Prop :=
| ending_usage :
    (length argv < 3)%nat ->
    ending argv (extend init_world [EvStderr (usage_line argv)]) (Ret (-1))
| ending_decode p :
    (3 <= length argv)%nat -> argv !! 1%nat = Some p -> load p = None ->
    ending argv (extend init_world [EvReadImage p]) (Fault DecodeError)
| ending_bad_alloc p img :
    (3 <= length argv)%nat -> argv !! 1%nat = Some p -> load p = Some img ->
    nsamples img < 0 ->
    ending argv
      (MkWorld (MkHeap (Some (pixels img)) None None None)
               [EvReadImage p; EvNew Output1 (nsamples img)]
               (Some (geometry img)) [] 0)
      (Fault BadAlloc)
| ending_loop_fault p img evs f :
    (3 <= length argv)%nat -> argv !! 1%nat = Some p -> load p = Some img ->
    0 <= nsamples img ->
    loop_end (output1_of img) (output2_of img) (nsamples img) 0 evs (Fault f) ->
    ending argv (extend (before_check p img) evs) (Fault f)
| ending_memcpy_fault p img evs v :
    (3 <= length argv)%nat -> argv !! 1%nat = Some p -> load p = Some img ->
    0 <= nsamples img ->
    loop_end (output1_of img) (output2_of img) (nsamples img) 0 evs (Ret v) ->
    Z.of_nat (length (pixels img)) < nsamples img ->
    ending argv
      (extend (before_check p img)
              (evs ++ [EvStdout (verdict_line v); EvMemcpy Data Output1 (nsamples img)]))
      (Fault (OutOfBounds Data (Z.of_nat (length (pixels img)))))
| ending_encode p q img evs v :
    (3 <= length argv)%nat -> argv !! 1%nat = Some p -> argv !! 2%nat = Some q ->
    load p = Some img -> 0 <= nsamples img ->
    loop_end (output1_of img) (output2_of img) (nsamples img) 0 evs (Ret v) ->
    nsamples img <= Z.of_nat (length (pixels img)) ->
    writable q = false ->
    ending argv
      (MkWorld (MkHeap (Some (stored_pixels img)) (Some (output1_of img))
                       (Some (output2_of img)) (Some (output3_of img)))
               (prologue p img ++ evs ++
                  [EvStdout (verdict_line v); EvMemcpy Data Output1 (nsamples img);
                   EvWriteImage q])
               (Some (geometry img)) [] 6)
      (Fault EncodeError)
| ending_done p q img evs v :
    (3 <= length argv)%nat -> argv !! 1%nat = Some p -> argv !! 2%nat = Some q ->
    load p = Some img -> 0 <= nsamples img ->
    loop_end (output1_of img) (output2_of img) (nsamples img) 0 evs (Ret v) ->
    nsamples img <= Z.of_nat (length (pixels img)) ->
    writable q = true ->
    ending argv
      (MkWorld (MkHeap (Some (stored_pixels img)) None None None)
               (prologue p img ++ evs ++
                  [EvStdout (verdict_line v); EvMemcpy Data Output1 (nsamples img);
                   EvWriteImage q; EvDelete Output1; EvDelete Output2; EvDelete Output3])
               (Some (geometry img)) [(q, stored_image img)] 6)
      (Ret 0).

Lemma nsamples_range img : - LONG_MAX - 1 <= nsamples img <= LONG_MAX.
Proof.
  unfold nsamples, long_mul, long_wrap, wrap, LONG_MAX.
  change (2 ^ (64 - 1)) with 9223372036854775808.
  change (2 ^ 64) with 18446744073709551616.
  match goal with |- context [?a mod ?b] => pose proof (Z.mod_pos_bound a b) end. lia.
Qed.

Lemma to_size_t_nsamples img : 0 <= nsamples img -> to_size_t (nsamples img * 1) = nsamples img.
Proof.
  intros H. pose proof (nsamples_range img) as Hr. unfold to_size_t, LONG_MAX in *.
  change (2 ^ 64) with 18446744073709551616. rewrite Z.mul_1_r, Z.mod_small; lia.
Qed.

Lemma length_fresh b n : 0 <= n -> Z.of_nat (length (fresh junk b n)) = n.
Proof. intros H. unfold fresh. rewrite length_fmap, length_seqZ. lia. Qed.

Lemma length_after_call v s d w h ch : length (after_call blur v s d w h ch) = length d.
Proof. unfold after_call. rewrite length_fmap, length_seqZ. lia. Qed.

Lemma length_output1 img : 0 <= nsamples img -> Z.of_nat (length (output1_of img)) = nsamples img.
Proof. intros H. unfold output1_of. by rewrite length_after_call, length_fresh. Qed.

Lemma length_output2 img : 0 <= nsamples img -> Z.of_nat (length (output2_of img)) = nsamples img.
Proof. intros H. unfold output2_of. by rewrite length_after_call, length_fresh. Qed.

(** What [main] does once the loop has set [success]. *)
Definition epilogue (q : string) (n : Z) (success : bool) : M Z :=
  (if success return M unit
   then printf ("Code results are correct." +:+ LF) []
   else printf ("Code results are incorrect." +:+ LF) []);;
  memcpy Data Output1 (to_size_t (n * 1));;
  writeImage writable (Some q);;
  delete Output1;; delete Output2;; delete Output3;; ret 0.

(** The run up to the comparison loop. *)
Lemma run_prologue a0 a1 a2 rest img :
  load a1 = Some img -> 0 <= nsamples img ->
  run load writable blur wtime junk (a0 :: a1 :: a2 :: rest) =
  (check_loop (S (Z.to_nat (nsamples img))) (nsamples img) 0 ≫=
     epilogue a2 (nsamples img)) (before_check a1 img).
Proof.
  intros Hload Hn. unfold run, main.
  change (Z.of_nat (length (a0 :: a1 :: a2 :: rest)) <? 3)
    with (Z.pos (Pos.of_succ_nat (S (S (length rest)))) <? 3).
  destruct (Z.ltb_spec (Z.pos (Pos.of_succ_nat (S (S (length rest))))) 3); [lia|].
  assert ((nsamples img <? 0) = false) as Hlt by (apply Z.ltb_ge; lia).
  unfold argv_at. simpl lookup. unfold readImage. rewrite Hload.
  unfold epilogue. run_step. fold (nsamples img). rewrite !Hlt. run_step.
  reflexivity.
Qed.

(** What [main] does after the loop, from the state the loop leaves. *)
Lemma epilogue_run p q img evs v :
  0 <= nsamples img ->
  epilogue q (nsamples img) v (extend (before_check p img) evs) =
  if Z.of_nat (length (pixels img)) <? nsamples img then
    (extend (before_check p img)
            (evs ++ [EvStdout (verdict_line v); EvMemcpy Data Output1 (nsamples img)]),
     Fault (OutOfBounds Data (Z.of_nat (length (pixels img)))))
  else if writable q then
    (MkWorld (MkHeap (Some (stored_pixels img)) None None None)
             (prologue p img ++ evs ++
                [EvStdout (verdict_line v); EvMemcpy Data Output1 (nsamples img);
                 EvWriteImage q; EvDelete Output1; EvDelete Output2; EvDelete Output3])
             (Some (geometry img)) [(q, stored_image img)] 6,
     Ret 0)
  else
    (MkWorld (MkHeap (Some (stored_pixels img)) (Some (output1_of img))
                     (Some (output2_of img)) (Some (output3_of img)))
             (prologue p img ++ evs ++
                [EvStdout (verdict_line v); EvMemcpy Data Output1 (nsamples img);
                 EvWriteImage q])
             (Some (geometry img)) [] 6,
     Fault EncodeError).
Proof.
  intros Hn. unfold epilogue.
  rewrite (to_size_t_nsamples img Hn).
  assert ((Z.of_nat (length (output1_of img)) <? nsamples img) = false) as H1
    by (rewrite length_output1 by done; apply Z.ltb_irrefl).
  unfold before_check, geometry.
  rewrite bind_run.
  replace ((if v return M unit
            then printf ("Code results are correct." +:+ LF) []
            else printf ("Code results are incorrect." +:+ LF) []))
    with (log (EvStdout (verdict_line v))) by (by destruct v).
  cbn [log]. rewrite bind_run.
  rewrite (memcpy_run Data Output1 _ (output1_of img) (pixels img)) by done.
  rewrite H1.
  destruct (Z.of_nat (length (pixels img)) <? nsamples img).
  - run_flat. by rewrite <- !app_assoc.
  - destruct (writable q) eqn:Hw; run_step; rewrite Hw; run_flat;
      rewrite <- !app_assoc; reflexivity.
Qed.

(** Every run ends in one of the listed ways. *)
Lemma run_ends (argv : list string) :
  ending argv (run load writable blur wtime junk argv).1
              (run load writable blur wtime junk argv).2.
Proof.
  destruct argv as [|a0 [|a1 [|a2 rest]]];
    try (apply ending_usage; simpl; lia).
  assert (3 <= length (a0 :: a1 :: a2 :: rest))%nat as Hargc by (simpl; lia).
  destruct (load a1) as [img|] eqn:Hload.
  - destruct (Z.ltb_spec (nsamples img) 0) as [Hneg|Hn].
    + assert ((nsamples img <? 0) = true) as Hlt by (apply Z.ltb_lt; lia).
      replace (run load writable blur wtime junk (a0 :: a1 :: a2 :: rest)) with
        (MkWorld (MkHeap (Some (pixels img)) None None None)
                 [EvReadImage a1; EvNew Output1 (nsamples img)]
                 (Some (geometry img)) [] 0, Fault (A:=Z) BadAlloc).
      * by eapply ending_bad_alloc.
      * unfold run, main.
        change (Z.of_nat (length (a0 :: a1 :: a2 :: rest)) <? 3)
          with (Z.pos (Pos.of_succ_nat (S (S (length rest)))) <? 3).
        destruct (Z.ltb_spec (Z.pos (Pos.of_succ_nat (S (S (length rest))))) 3); [lia|].
        unfold argv_at. simpl lookup. unfold readImage. rewrite Hload.
        unfold geometry. run_step. fold (nsamples img). rewrite Hlt. reflexivity.
    + rewrite (run_prologue _ _ _ _ _ Hload Hn), bind_run.
      destruct (check_loop_run (output1_of img) (output2_of img) (nsamples img)
                  (length_output1 img Hn) (length_output2 img Hn)
                  (S (Z.to_nat (nsamples img))) 0 (before_check a1 img))
        as (evs & r & Hrun & Hend); try done; try (unfold INT_MAX; lia).
      rewrite Hrun. destruct r as [v|f].
      * rewrite (epilogue_run a1 a2 img evs v Hn).
        destruct (Z.ltb_spec (Z.of_nat (length (pixels img))) (nsamples img)).
        -- by eapply ending_memcpy_fault.
        -- destruct (writable a2) eqn:Hw.
           ++ by eapply ending_done.
           ++ by eapply ending_encode.
      * by eapply ending_loop_fault.
  - replace (run load writable blur wtime junk (a0 :: a1 :: a2 :: rest)) with
      (extend init_world [EvReadImage a1], Fault (A:=Z) DecodeError).
    + by eapply ending_decode.
    + unfold run, main.
      change (Z.of_nat (length (a0 :: a1 :: a2 :: rest)) <? 3)
        with (Z.pos (Pos.of_succ_nat (S (S (length rest)))) <? 3).
      destruct (Z.ltb_spec (Z.pos (Pos.of_succ_nat (S (S (length rest))))) 3); [lia|].
      unfold argv_at. simpl lookup. unfold readImage. rewrite Hload.
      reflexivity.
Qed.

(** *** The observable parts of the prologue *)

Lemma prologue_stdout p img :
  stdout_of (prologue p img) =
  [ Printf ("Time taken for blur5: %.4f seconds" +:+ LF) [ADouble (duration 0)];
    Printf ("Running serial and baseline parallel for comparison..." +:+ LF) [];
    Printf ("Time taken for serial blur5: %.4f seconds" +:+ LF) [ADouble (duration 2)];
    Printf ("Time taken for baseline parallel blur5: %.4f seconds" +:+ LF)
           [ADouble (duration 4)];
    Printf ("Checking results for comparison..." +:+ LF) [] ].
Proof. reflexivity. Qed.

Lemma prologue_verdicts p img : verdicts_of (prologue p img) = [].
Proof. reflexivity. Qed.

Lemma prologue_loads p img : loads_of (prologue p img) = [].
Proof. reflexivity. Qed.

Lemma prologue_durations p img :
  durations_of (prologue p img) =
  [ ("Time taken for blur5: %.4f seconds" +:+ LF, duration 0);
    ("Time taken for serial blur5: %.4f seconds" +:+ LF, duration 2);
    ("Time taken for baseline parallel blur5: %.4f seconds" +:+ LF, duration 4) ].
Proof. reflexivity. Qed.

Lemma prologue_timeline p img :
  timeline_of (prologue p img) =
  [ EvCall Blur5 Data Output3 (width img) (height img) (channels img);
    EvWtime;
    EvCall Blur5 Data Output1 (width img) (height img) (channels img);
    EvWtime;
    EvWtime;
    EvCall Blur5_serial Data Output2 (width img) (height img) (channels img);
    EvWtime;
    EvWtime;
    EvCall Blur5_parallel Data Output3 (width img) (height img) (channels img);
    EvWtime ].
Proof. reflexivity. Qed.

(** Case analysis on how the run on [argv] ends. *)
Ltac by_ending argv :=
  let H := fresh "Hend" in
  pose proof (run_ends argv) as H;
  destruct (run load writable blur wtime junk argv) as [w r];
  cbn [fst snd] in *;
  destruct H; simplify_eq;
  cbn [trace heap files loaded ticks extend before_check init_world app] in *.

(** C6: with fewer than two positional arguments ([argc < 3]) the process
    writes the usage message to the error stream and returns [-1], a
    non-zero exit status, and that message is all it does: nothing is
    loaded, no buffer is allocated, nothing is written to standard output
    or to a file. *)
Theorem usage_error_exits_before_any_work (argv : list string) :
  (length argv < 3)%nat ->
  let (w, r) := run load writable blur wtime junk argv in
  r = Ret (-1) /\ exit_status (-1) = 255 /\
  trace w = [EvStderr (usage_line argv)] /\
  stderr_of (trace w) = [usage_line argv] /\ stdout_of (trace w) = [] /\
  heap w = MkHeap None None None None /\ files w = [] /\ loaded w = None.
Proof.
  intros Hargc. destruct argv as [|a0 [|a1 [|a2 rest]]]; simpl in Hargc; try lia;
    repeat split.
Qed.

Lemma nsamples_zero img : width img * height img * channels img = 0 -> nsamples img = 0.
Proof.
  intros H. unfold nsamples, long_mul.
  destruct (Z.eq_dec (channels img) 0) as [->|Hch].
  - by rewrite Z.mul_0_r.
  - assert (width img * height img = 0) as -> by nia. reflexivity.
Qed.

Lemma nsamples_exact img :
  0 <= width img -> 0 <= height img -> 0 <= channels img ->
  width img * height img * channels img <= LONG_MAX ->
  nsamples img = width img * height img * channels img.
Proof.
  intros Hw Hh Hch Hmax.
  destruct (Z.eq_dec (width img * height img * channels img) 0) as [H0|Hne].
  { rewrite H0. by apply nsamples_zero. }
  assert (0 <= width img * height img) as Ha by nia.
  assert (1 <= channels img) as Hch1 by (destruct (Z.eq_dec (channels img) 0); [nia|lia]).
  unfold nsamples, long_mul.
  generalize dependent (width img * height img). intros a Hmax Hne Ha.
  assert (a <= a * channels img) as Hle by nia.
  rewrite (long_wrap_small a) by lia.
  apply long_wrap_small. lia.
Qed.

(** C10: for an image with [width * height * channels = 0] the comparison
    loop reads no element and the one verdict printed is
    "Code results are correct.". *)
Theorem empty_buffer_reports_success (argv : list string) (p : string) (img : image) :
  (3 <= length argv)%nat -> argv !! 1%nat = Some p -> load p = Some img ->
  width img * height img * channels img = 0 ->
  loads_of (trace (run load writable blur wtime junk argv).1) = [] /\
  verdicts_of (trace (run load writable blur wtime junk argv).1) = [true] /\
  verdict_line true ∈ stdout_of (trace (run load writable blur wtime junk argv).1).
Proof.
  intros Hargc Hp Hload Hn%nsamples_zero.
  by_ending argv; try lia;
    match goal with
    | H : loop_end _ _ _ _ _ _ |- _ =>
        destruct (loop_end_empty _ _ _ _ _ Hn H) as [? ->]; simplify_eq
    end;
    (split; [reflexivity|]; split; [reflexivity|]);
    rewrite stdout_of_app; apply elem_of_app; right; apply list_elem_of_here.
Qed.

(** The comparison as the trace of a run shows it. *)
Lemma run_compares (argv : list string) (p : string) (img : image) :
  (3 <= length argv)%nat -> argv !! 1%nat = Some p -> load p = Some img ->
  0 <= nsamples img ->
  exists evs rl,
    loop_end (output1_of img) (output2_of img) (nsamples img) 0 evs rl /\
    loads_of (trace (run load writable blur wtime junk argv).1) = loads_of evs /\
    verdicts_of (trace (run load writable blur wtime junk argv).1) =
      match rl with Ret v => [v] | Fault _ => [] end.
Proof.
  intros Hargc Hp Hload Hn.
  by_ending argv; try lia;
    match goal with
    | H : loop_end _ _ _ _ ?evs ?rl |- _ =>
        exists evs, rl; split; [exact H|]; pose proof (loop_end_only_loads _ _ _ _ _ _ H)
    end;
    unfold loads_of at 1; rewrite !verdicts_of_app, !omap_app, prologue_verdicts,
      only_loads_verdicts by done; simpl; rewrite ?app_nil_r; split; try done.
  all: by destruct v.
Qed.

Lemma run_no_comparison (argv : list string) (p : string) (img : image) :
  (3 <= length argv)%nat -> argv !! 1%nat = Some p -> load p = Some img ->
  nsamples img < 0 ->
  loads_of (trace (run load writable blur wtime junk argv).1) = [] /\
  verdicts_of (trace (run load writable blur wtime junk argv).1) = [].
Proof. intros Hargc Hp Hload Hn. by_ending argv; try lia. done. Qed.

(** C2: whenever the harness prints a verdict, it is "incorrect" exactly
    when some sample of [output1] (blur5) and [output2] (blur5_serial) below
    [w*h*ch] differs. "Incorrect" comes with the loop having stopped at the
    first mismatch: the reads are those of the indices up to it and no
    others; "correct" comes with all [w*h*ch] samples read and found equal.
    For a sample count the [int] counter can reach, a verdict is always
    printed. *)
Theorem verdict_incorrect_iff_mismatch (argv : list string) (p : string) (img : image) :
  (3 <= length argv)%nat -> argv !! 1%nat = Some p -> load p = Some img ->
  let tr := trace (run load writable blur wtime junk argv).1 in
  let o1 := output1_of img in
  let o2 := output2_of img in
  let n := nsamples img in
  (forall v, v ∈ verdicts_of tr -> v = false <-> mismatch o1 o2 n) /\
  (false ∈ verdicts_of tr ->
     exists k, 0 <= k < n /\ agree o1 o2 0 k /\
               o1 !! Z.to_nat k <> o2 !! Z.to_nat k /\
               loads_of tr = scan_pairs 0 (k + 1)) /\
  (true ∈ verdicts_of tr -> agree o1 o2 0 n /\ loads_of tr = scan_pairs 0 n) /\
  (0 <= n <= INT_MAX -> exists v, verdicts_of tr = [v]).
Proof.
  intros Hargc Hp Hload tr o1 o2 n.
  destruct (Z.lt_ge_cases n 0) as [Hneg|Hn].
  { destruct (run_no_comparison argv p img) as [Hl Hv]; try done.
    subst tr. rewrite Hv.
    split; [intros v Hin; by apply not_elem_of_nil in Hin|].
    split; [intros Hin; by apply not_elem_of_nil in Hin|].
    split; [intros Hin; by apply not_elem_of_nil in Hin|lia]. }
  destruct (run_compares argv p img) as (evs & rl & Hend & Hl & Hv); try done.
  subst tr. rewrite Hv, Hl. clear Hv Hl.
  destruct rl as [[]|f].
  - (* "correct" *)
    pose proof (loop_end_correct _ _ _ _ Hend) as (Hag & _ & ->).
    pose proof (agree_no_mismatch _ _ _ Hag) as Hno.
    split; [|split; [|split]].
    + intros v Hin. apply list_elem_of_singleton in Hin as ->. split; [done|].
      intros Hm. by destruct Hno.
    + intros Hin. by apply list_elem_of_singleton in Hin.
    + intros _. split; [done|apply loads_of_scan].
    + intros _. by exists true.
  - (* "incorrect" *)
    pose proof (loop_end_incorrect _ _ _ _ Hend) as (k & Hk & Hag & Hne & ->).
    split; [|split; [|split]].
    + intros v Hin. apply list_elem_of_singleton in Hin as ->. split; [|done].
      intros _. by exists k.
    + intros _. exists k. repeat split; try done; try lia. apply loads_of_scan.
    + intros Hin. by apply list_elem_of_singleton in Hin.
    + intros _. by exists false.
  - (* no verdict *)
    split; [intros v Hin; by apply not_elem_of_nil in Hin|].
    split; [intros Hin; by apply not_elem_of_nil in Hin|].
    split; [intros Hin; by apply not_elem_of_nil in Hin|].
    intros [_ Hmax]. destruct (loop_end_int_range _ _ _ _ _ Hend Hmax) as [v ?].
    discriminate.
Qed.

Lemma stored_pixels_full img :
  Z.of_nat (length (pixels img)) = nsamples img -> stored_pixels img = output1_of img.
Proof.
  intros H. assert (0 <= nsamples img) as Hn by lia.
  pose proof (length_output1 img Hn) as H1. unfold stored_pixels.
  rewrite take_ge, drop_ge by lia. apply app_nil_r.
Qed.

(** C7: a run that returns 0 has written to standard output, in this
    order: the blur5 duration, a progress line, the serial duration, the
    baseline-parallel duration, a progress line, and one verdict. The
    duration lines are exactly these three, each printed with [%.4f]
    seconds from the two clock readings around the variant's timed call, and
    the verdict is the last line. *)
Theorem successful_run_prints_three_durations_then_verdict (argv : list string) :
  (run load writable blur wtime junk argv).2 = Ret 0 ->
  let tr := trace (run load writable blur wtime junk argv).1 in
  exists v : bool,
    stdout_of tr =
      [ Printf ("Time taken for blur5: %.4f seconds" +:+ LF) [ADouble (duration 0)];
        Printf ("Running serial and baseline parallel for comparison..." +:+ LF) [];
        Printf ("Time taken for serial blur5: %.4f seconds" +:+ LF) [ADouble (duration 2)];
        Printf ("Time taken for baseline parallel blur5: %.4f seconds" +:+ LF)
               [ADouble (duration 4)];
        Printf ("Checking results for comparison..." +:+ LF) [];
        verdict_line v ] /\
    durations_of tr =
      [ ("Time taken for blur5: %.4f seconds" +:+ LF, duration 0);
        ("Time taken for serial blur5: %.4f seconds" +:+ LF, duration 2);
        ("Time taken for baseline parallel blur5: %.4f seconds" +:+ LF, duration 4) ] /\
    verdicts_of tr = [v].
Proof.
  intros Hret tr. subst tr. revert Hret.
  by_ending argv; intros Hret; try discriminate.
  match goal with H : loop_end _ _ _ _ _ _ |- _ =>
    pose proof (loop_end_only_loads _ _ _ _ _ _ H) as Hloads end.
  exists v.
  rewrite !stdout_of_app, !durations_of_app, !verdicts_of_app, prologue_stdout,
    prologue_durations, prologue_verdicts, (only_loads_stdout evs),
    (only_loads_durations evs), (only_loads_verdicts evs) by done.
  by destruct v.
Qed.

(** C8: when two positional arguments are given, the input loads, the
    input buffer holds at least [w*h*ch] samples and the output can be
    written, [main] returns 0 whichever verdict it printed; and for a sample
    count within [int] it always prints one. *)
Theorem exit_status_zero_whatever_the_verdict
    (argv : list string) (p q : string) (img : image) :
  (3 <= length argv)%nat -> argv !! 1%nat = Some p -> argv !! 2%nat = Some q ->
  load p = Some img -> writable q = true ->
  nsamples img <= Z.of_nat (length (pixels img)) ->
  let tr := trace (run load writable blur wtime junk argv).1 in
  (forall v, v ∈ verdicts_of tr -> (run load writable blur wtime junk argv).2 = Ret 0) /\
  (0 <= nsamples img <= INT_MAX ->
     exists v, verdicts_of tr = [v] /\ (run load writable blur wtime junk argv).2 = Ret 0).
Proof.
  intros Hargc Hp Hq Hload Hw Hlen tr. subst tr.
  by_ending argv; try lia; try congruence;
    try match goal with H : loop_end _ _ _ _ _ _ |- _ =>
      pose proof (loop_end_only_loads _ _ _ _ _ _ H) as Hloads end.
  - (* bad_alloc *) split; [intros v Hin; by apply not_elem_of_nil in Hin|lia].
  - (* the counter wrapped *)
    rewrite !verdicts_of_app, prologue_verdicts, (only_loads_verdicts evs) by done.
    split; [intros v Hin; by apply not_elem_of_nil in Hin|]. intros [_ Hmax].
    match goal with H : loop_end _ _ _ _ _ _ |- _ =>
      destruct (loop_end_int_range _ _ _ _ _ H Hmax) as [? ?] end.
    discriminate.
  - (* done *)
    split; [done|]. intros _. exists v. split; [|done].
    rewrite !verdicts_of_app, prologue_verdicts, (only_loads_verdicts evs) by done.
    by destruct v.
Qed.

(** C1, as amended: once a verdict is printed (either one), and given
    that the input buffer holds exactly [w*h*ch] samples and the output can
    be written, the harness copies [output1], the timed output of blur5 (the
    Optimized Parallel variant), over the input buffer in place, hands that
    buffer to the store collaborator, and releases the three output
    buffers: the stored image is blur5's output. *)
Theorem persists_blur5_output_whatever_the_verdict
    (argv : list string) (p q : string) (img : image) (v : bool) :
  (3 <= length argv)%nat -> argv !! 1%nat = Some p -> argv !! 2%nat = Some q ->
  load p = Some img -> writable q = true ->
  Z.of_nat (length (pixels img)) = nsamples img ->
  v ∈ verdicts_of (trace (run load writable blur wtime junk argv).1) ->
  let w := (run load writable blur wtime junk argv).1 in
  (exists pre,
     trace w = pre ++ [ EvStdout (verdict_line v);
                        EvMemcpy Data Output1 (nsamples img);
                        EvWriteImage q;
                        EvDelete Output1; EvDelete Output2; EvDelete Output3 ]) /\
  heap_get (heap w) Data = Some (output1_of img) /\
  files w = [(q, Image (output1_of img) (width img) (height img) (channels img))].
Proof.
  intros Hargc Hp Hq Hload Hw Hlen Hv w. subst w. revert Hv.
  by_ending argv; try lia; try congruence;
    try match goal with H : loop_end _ _ _ _ _ _ |- _ =>
      pose proof (loop_end_only_loads _ _ _ _ _ _ H) as Hloads end.
  - rewrite !verdicts_of_app, prologue_verdicts, (only_loads_verdicts evs) by done.
    intros Hv. by apply (not_elem_of_nil v) in Hv.
  - rewrite !verdicts_of_app, prologue_verdicts, (only_loads_verdicts evs) by done.
    rewrite verdicts_of_verdict_line by done. intros Hv.
    apply list_elem_of_singleton in Hv as ->.
    unfold stored_image. rewrite stored_pixels_full by done.
    split; [|done]. exists (prologue p img ++ evs). by rewrite <- app_assoc.
Qed.

(** C4, as amended: only blur5 (Optimized Parallel) is warmed up. A run
    that gets past allocation calls blur5 once into [output3] with no clock
    reading around it, then times blur5 into [output1], blur5_serial into
    [output2] and blur5_parallel into [output3], each between two clock
    readings: blur5 is called twice, the other two variants once. *)
Theorem only_blur5_is_warmed_up (argv : list string) (p : string) (img : image) :
  (3 <= length argv)%nat -> argv !! 1%nat = Some p -> load p = Some img ->
  0 <= nsamples img ->
  let tr := trace (run load writable blur wtime junk argv).1 in
  timeline_of tr =
    [ EvCall Blur5 Data Output3 (width img) (height img) (channels img);
      EvWtime;
      EvCall Blur5 Data Output1 (width img) (height img) (channels img);
      EvWtime;
      EvWtime;
      EvCall Blur5_serial Data Output2 (width img) (height img) (channels img);
      EvWtime;
      EvWtime;
      EvCall Blur5_parallel Data Output3 (width img) (height img) (channels img);
      EvWtime ] /\
  invocations Blur5 tr = 2%nat /\
  invocations Blur5_serial tr = 1%nat /\
  invocations Blur5_parallel tr = 1%nat.
Proof.
  intros Hargc Hp Hload Hn tr. subst tr. unfold invocations.
  by_ending argv; try lia;
    match goal with H : loop_end _ _ _ _ _ _ |- _ =>
      pose proof (loop_end_only_loads _ _ _ _ _ _ H) as Hloads end;
    rewrite !timeline_of_app, !calls_of_app, prologue_timeline,
      (only_loads_timeline evs), (only_loads_calls evs) by done;
    repeat split.
Qed.

(** Replacing [blur5_parallel] changes nothing a run shows. *)
Lemma naive_irrelevant (f : buffer -> buffer -> Z -> Z -> Z -> Z -> Z) (argv : list string) :
  low_eq (run load writable (with_naive blur f) wtime junk argv).1
         (run load writable blur wtime junk argv).1 /\
  (run load writable (with_naive blur f) wtime junk argv).2 =
    (run load writable blur wtime junk argv).2.
Proof. apply related_main; [done|done|apply low_eq_refl]. Qed.

(** C5: the comparison reads [output1] and [output2] only, which the
    calls of blur5 and blur5_serial filled; [output3], which
    blur5_parallel fills between two clock readings, is never read, and
    the verdicts printed are the same whatever blur5_parallel computes. *)
Theorem naive_output_is_timed_but_never_compared (argv : list string) :
  let tr := trace (run load writable blur wtime junk argv).1 in
  (forall b i, (b, i) ∈ loads_of tr -> b = Output1 \/ b = Output2) /\
  (forall f, verdicts_of (trace (run load writable (with_naive blur f) wtime junk argv).1)
             = verdicts_of tr) /\
  (forall p img,
     (3 <= length argv)%nat -> argv !! 1%nat = Some p -> load p = Some img ->
     0 <= nsamples img ->
     calls_of tr = [ (Blur5, Output3); (Blur5, Output1);
                     (Blur5_serial, Output2); (Blur5_parallel, Output3) ] /\
     exists pre,
       timeline_of tr =
         pre ++ [ EvWtime;
                  EvCall Blur5_parallel Data Output3 (width img) (height img) (channels img);
                  EvWtime ]).
Proof.
  intros tr. subst tr. split; [|split].
  - intros b i.
    by_ending argv;
      try match goal with H : loop_end _ _ _ _ _ _ |- _ =>
        pose proof (loop_end_only_loads _ _ _ _ _ _ H) as Hloads end;
      rewrite ?loads_of_app, ?prologue_loads; simpl; rewrite ?app_nil_r;
      try (intros Hin; by apply not_elem_of_nil in Hin);
      by apply only_loads_buffers.
  - intros f. destruct (naive_irrelevant f argv) as [(Htr & _) _]. by rewrite Htr.
  - intros p img Hargc Hp Hload Hn.
    by_ending argv; try lia;
      match goal with H : loop_end _ _ _ _ _ _ |- _ =>
        pose proof (loop_end_only_loads _ _ _ _ _ _ H) as Hloads end;
      rewrite !timeline_of_app, !calls_of_app, prologue_timeline,
        (only_loads_timeline evs), (only_loads_calls evs) by done;
      (split; [reflexivity|]);
      by eexists [_; _; _; _; _; _; _].
Qed.

(** X2: a first mismatch at an index the [int] counter reaches is always
    reported, whatever the sample count: the one verdict printed is
    "incorrect", after the reads of the indices up to the mismatch and no
    others. *)
Theorem first_mismatch_is_reported
    (argv : list string) (p : string) (img : image) (k : Z) :
  (3 <= length argv)%nat -> argv !! 1%nat = Some p -> load p = Some img ->
  0 <= k < nsamples img -> k <= INT_MAX ->
  agree (output1_of img) (output2_of img) 0 k ->
  output1_of img !! Z.to_nat k <> output2_of img !! Z.to_nat k ->
  verdicts_of (trace (run load writable blur wtime junk argv).1) = [false] /\
  loads_of (trace (run load writable blur wtime junk argv).1) = scan_pairs 0 (k + 1).
Proof.
  intros Hargc Hp Hload Hk Hmax Hag Hne.
  destruct (run_compares argv p img) as (evs & rl & Hend & Hl & Hv); try done; try lia.
  destruct (loop_end_first_mismatch _ _ _ _ _ k Hend) as [-> ->]; try done.
  rewrite Hv, Hl. split; [done|apply loads_of_scan].
Qed.

(** The loop bound of the model is never what ends a run. *)
Lemma run_fuel_suffices (argv : list string) :
  (run load writable blur wtime junk argv).2 <> Fault OutOfFuel.
Proof.
  by_ending argv; try discriminate.
  match goal with H : loop_end _ _ _ _ _ _ |- _ => apply loop_end_fault in H as -> end.
  discriminate.
Qed.


End Runs.

(** C9: two runs that differ only in what blur5_parallel writes into its
    output buffer show the same trace (so the same standard output and the same
    verdict), write the same files with the same pixel bytes, return the same
    value, and leave the same bytes in the input buffer. *)
Theorem verdict_and_stored_image_ignore_naive_output
    (load : string -> option image) (writable : string -> bool)
    (blur : variant -> buffer -> buffer -> Z -> Z -> Z -> Z -> Z)
    (wtime : nat -> float) (junk : buf -> Z -> Z)
    (f g : buffer -> buffer -> Z -> Z -> Z -> Z -> Z) (argv : list string) :
  let r1 := run load writable (with_naive blur f) wtime junk argv in
  let r2 := run load writable (with_naive blur g) wtime junk argv in
  trace r1.1 = trace r2.1 /\
  verdicts_of (trace r1.1) = verdicts_of (trace r2.1) /\
  files r1.1 = files r2.1 /\
  heap_get (heap r1.1) Data = heap_get (heap r2.1) Data /\
  r1.2 = r2.2.
Proof.
  intros r1 r2.
  destruct (related_main load writable (with_naive blur f) (with_naive blur g) wtime junk argv
              eq_refl eq_refl init_world init_world (low_eq_refl _))
    as [(Htr & _ & Hfiles & _ & Hdata & _) Hret].
  subst r1 r2. unfold run.
  split; [exact Htr|]. split; [by rewrite Htr|].
  split; [exact Hfiles|]. split; [exact Hdata|exact Hret].
Qed.

(** ** Concrete runs *)

(** A 3x2 single-channel input, and a degenerate image without samples. *)
Definition demo_image : image := Image [1; 2; 3; 4; 5; 6] 3 2 1.
Definition empty_image : image := Image [] 0 0 1.

Definition demo_load (p : string) : option image :=
  if String.eqb p "in.png" then Some demo_image
  else if String.eqb p "empty.png" then Some empty_image
  else None.

Definition demo_wtime (k : nat) : float := nth k [1.0; 1.5; 2.0; 4.0; 4.5; 5.0]%float 0%float.
Definition demo_junk (b : buf) (i : Z) : Z := 0.

(** Three variants that agree: each copies the source. *)
Definition copy_blur (v : variant) (src dst : buffer) (w h ch i : Z) : Z :=
  default 0 (src !! Z.to_nat i).

(** blur5 seeded with a row-boundary bug: it leaves the last row of the
    destination as it found it; the other two variants copy the source. *)
Definition seeded_bug_blur (v : variant) (src dst : buffer) (w h ch i : Z) : Z :=
  match v with
  | Blur5 => if i <? w * (h - 1) * ch then default 0 (src !! Z.to_nat i)
             else default 0 (dst !! Z.to_nat i)
  | _ => default 0 (src !! Z.to_nat i)
  end.

Definition demo_argv : list string := ["blur"; "in.png"; "out.png"].

Definition good_run : World * outcome Z :=
  run demo_load (fun _ => true) copy_blur demo_wtime demo_junk demo_argv.
Definition bad_run : World * outcome Z :=
  run demo_load (fun _ => true) seeded_bug_blur demo_wtime demo_junk demo_argv.

Example good_run_verdict : verdicts_of (trace good_run.1) = [true] /\ good_run.2 = Ret 0.
Proof. by vm_compute. Qed.

Example bad_run_verdict : verdicts_of (trace bad_run.1) = [false] /\ bad_run.2 = Ret 0.
Proof. by vm_compute. Qed.

Example bad_run_outputs :
  output1_of seeded_bug_blur demo_junk demo_image = [1; 2; 3; 0; 0; 0] /\
  output2_of seeded_bug_blur demo_junk demo_image = [1; 2; 3; 4; 5; 6].
Proof. by vm_compute. Qed.

(** *** C6 *)

Lemma usage_error_witness :
  let (w, r) := run demo_load (fun _ => true) copy_blur demo_wtime demo_junk ["blur"; "in.png"] in
  r = Ret (-1) /\ exit_status (-1) = 255 /\
  trace w = [EvStderr (usage_line ["blur"; "in.png"])] /\
  stderr_of (trace w) = [usage_line ["blur"; "in.png"]] /\ stdout_of (trace w) = [] /\
  heap w = MkHeap None None None None /\ files w = [] /\ loaded w = None.
Proof.
  apply (usage_error_exits_before_any_work demo_load (fun _ => true) copy_blur
           demo_wtime demo_junk ["blur"; "in.png"]).
  simpl. lia.
Defined.

(** *** C10 *)

Lemma empty_buffer_witness :
  let tr := trace (run demo_load (fun _ => true) copy_blur demo_wtime demo_junk
                       ["blur"; "empty.png"; "out.png"]).1 in
  loads_of tr = [] /\ verdicts_of tr = [true] /\ verdict_line true ∈ stdout_of tr.
Proof.
  apply (empty_buffer_reports_success demo_load (fun _ => true) copy_blur demo_wtime
           demo_junk ["blur"; "empty.png"; "out.png"] "empty.png" empty_image).
  - simpl. lia.
  - reflexivity.
  - reflexivity.
  - reflexivity.
Defined.

(** *** C2 *)

Lemma verdict_incorrect_witness :
  let tr := trace bad_run.1 in
  let o1 := output1_of seeded_bug_blur demo_junk demo_image in
  let o2 := output2_of seeded_bug_blur demo_junk demo_image in
  (forall v, v ∈ verdicts_of tr -> v = false <-> mismatch o1 o2 6) /\
  (false ∈ verdicts_of tr ->
     exists k, 0 <= k < 6 /\ agree o1 o2 0 k /\
               o1 !! Z.to_nat k <> o2 !! Z.to_nat k /\
               loads_of tr = scan_pairs 0 (k + 1)) /\
  (true ∈ verdicts_of tr -> agree o1 o2 0 6 /\ loads_of tr = scan_pairs 0 6) /\
  (0 <= 6 <= INT_MAX -> exists v, verdicts_of tr = [v]).
Proof.
  apply (verdict_incorrect_iff_mismatch demo_load (fun _ => true) seeded_bug_blur
           demo_wtime demo_junk demo_argv "in.png" demo_image).
  - simpl. lia.
  - reflexivity.
  - reflexivity.
Defined.

(** *** C7 *)

Lemma successful_run_output_witness :
  exists v : bool,
    stdout_of (trace good_run.1) =
      [ Printf ("Time taken for blur5: %.4f seconds" +:+ LF) [ADouble (duration demo_wtime 0)];
        Printf ("Running serial and baseline parallel for comparison..." +:+ LF) [];
        Printf ("Time taken for serial blur5: %.4f seconds" +:+ LF)
               [ADouble (duration demo_wtime 2)];
        Printf ("Time taken for baseline parallel blur5: %.4f seconds" +:+ LF)
               [ADouble (duration demo_wtime 4)];
        Printf ("Checking results for comparison..." +:+ LF) [];
        verdict_line v ] /\
    durations_of (trace good_run.1) =
      [ ("Time taken for blur5: %.4f seconds" +:+ LF, duration demo_wtime 0);
        ("Time taken for serial blur5: %.4f seconds" +:+ LF, duration demo_wtime 2);
        ("Time taken for baseline parallel blur5: %.4f seconds" +:+ LF,
         duration demo_wtime 4) ] /\
    verdicts_of (trace good_run.1) = [v].
Proof.
  apply (successful_run_prints_three_durations_then_verdict demo_load (fun _ => true)
           copy_blur demo_wtime demo_junk demo_argv).
  vm_compute. reflexivity.
Defined.

(** *** C8: both verdict branches *)

Lemma exit_status_witness :
  ((forall v, v ∈ verdicts_of (trace good_run.1) -> good_run.2 = Ret 0) /\
   (0 <= nsamples demo_image <= INT_MAX ->
      exists v, verdicts_of (trace good_run.1) = [v] /\ good_run.2 = Ret 0)) /\
  ((forall v, v ∈ verdicts_of (trace bad_run.1) -> bad_run.2 = Ret 0) /\
   (0 <= nsamples demo_image <= INT_MAX ->
      exists v, verdicts_of (trace bad_run.1) = [v] /\ bad_run.2 = Ret 0)).
Proof.
  split.
  - apply (exit_status_zero_whatever_the_verdict demo_load (fun _ => true) copy_blur
             demo_wtime demo_junk demo_argv "in.png" "out.png" demo_image).
    + simpl. lia.
    + reflexivity.
    + reflexivity.
    + reflexivity.
    + reflexivity.
    + vm_compute. discriminate.
  - apply (exit_status_zero_whatever_the_verdict demo_load (fun _ => true) seeded_bug_blur
             demo_wtime demo_junk demo_argv "in.png" "out.png" demo_image).
    + simpl. lia.
    + reflexivity.
    + reflexivity.
    + reflexivity.
    + reflexivity.
    + vm_compute. discriminate.
Defined.

(** *** C1 *)

(** C1 as the spec words it: the image stored is the output of
    blur5_serial (the Sequential Reference). *)
Definition persists_serial_output
    (load : string -> option image) (writable : string -> bool)
    (blur : variant -> buffer -> buffer -> Z -> Z -> Z -> Z -> Z)
    (wtime : nat -> float) (junk : buf -> Z -> Z)
    (argv : list string) (q : string) (img : image) : Prop :=
  files (run load writable blur wtime junk argv).1 =
  [(q, Image (output2_of blur junk img) (width img) (height img) (channels img))].

(** With blur5 and blur5_serial in disagreement the stored pixels are
    blur5's [1; 2; 3; 0; 0; 0], not blur5_serial's [1; 2; 3; 4; 5; 6]. *)
Lemma stored_image_is_not_the_serial_output :
  ~ persists_serial_output demo_load (fun _ => true) seeded_bug_blur demo_wtime demo_junk
      demo_argv "out.png" demo_image.
Proof. unfold persists_serial_output. vm_compute. intros H. discriminate H. Qed.

Lemma persists_blur5_output_witness :
  let w := bad_run.1 in
  (exists pre,
     trace w = pre ++ [ EvStdout (verdict_line false);
                        EvMemcpy Data Output1 (nsamples demo_image);
                        EvWriteImage "out.png";
                        EvDelete Output1; EvDelete Output2; EvDelete Output3 ]) /\
  heap_get (heap w) Data = Some (output1_of seeded_bug_blur demo_junk demo_image) /\
  files w = [("out.png", Image (output1_of seeded_bug_blur demo_junk demo_image) 3 2 1)].
Proof.
  apply (persists_blur5_output_whatever_the_verdict demo_load (fun _ => true)
           seeded_bug_blur demo_wtime demo_junk demo_argv "in.png" "out.png" demo_image false).
  - simpl. lia.
  - reflexivity.
  - reflexivity.
  - reflexivity.
  - reflexivity.
  - reflexivity.
  - vm_compute. apply list_elem_of_here.
Defined.

(** *** C4 *)

(** C4 as the spec words it: every variant is called twice, a warm-up
    and a timed call. *)
Definition every_variant_warmed_up (tr : list event) : Prop :=
  forall v, invocations v tr = 2%nat.

Lemma serial_and_naive_are_not_warmed_up :
  invocations Blur5_serial (trace good_run.1) = 1%nat /\
  invocations Blur5_parallel (trace good_run.1) = 1%nat /\
  ~ every_variant_warmed_up (trace good_run.1).
Proof.
  split; [by vm_compute|]. split; [by vm_compute|].
  intros H. specialize (H Blur5_serial). vm_compute in H. discriminate H.
Qed.

Lemma only_blur5_is_warmed_up_witness :
  let tr := trace good_run.1 in
  timeline_of tr =
    [ EvCall Blur5 Data Output3 3 2 1; EvWtime;
      EvCall Blur5 Data Output1 3 2 1; EvWtime;
      EvWtime; EvCall Blur5_serial Data Output2 3 2 1; EvWtime;
      EvWtime; EvCall Blur5_parallel Data Output3 3 2 1; EvWtime ] /\
  invocations Blur5 tr = 2%nat /\
  invocations Blur5_serial tr = 1%nat /\
  invocations Blur5_parallel tr = 1%nat.
Proof.
  apply (only_blur5_is_warmed_up demo_load (fun _ => true) copy_blur demo_wtime demo_junk
           demo_argv "in.png" demo_image).
  - simpl. lia.
  - reflexivity.
  - reflexivity.
  - vm_compute. discriminate.
Defined.

(** *** C5 *)

Lemma naive_output_witness :
  calls_of (trace good_run.1) =
    [ (Blur5, Output3); (Blur5, Output1); (Blur5_serial, Output2); (Blur5_parallel, Output3) ] /\
  (forall b i, (b, i) ∈ loads_of (trace good_run.1) -> b = Output1 \/ b = Output2).
Proof.
  destruct (naive_output_is_timed_but_never_compared demo_load (fun _ => true) copy_blur
              demo_wtime demo_junk demo_argv) as (Hloads & _ & Htimed).
  destruct (Htimed "in.png" demo_image) as [Hcalls _].
  - simpl. lia.
  - reflexivity.
  - reflexivity.
  - vm_compute. discriminate.
  - split; [exact Hcalls|exact Hloads].
Defined.

(** *** A buffer the [int] counter cannot cover *)




Lemma first_mismatch_witness :
  verdicts_of (trace bad_run.1) = [false] /\ loads_of (trace bad_run.1) = scan_pairs 0 (3 + 1).
Proof.
  apply (first_mismatch_is_reported demo_load (fun _ => true) seeded_bug_blur demo_wtime
           demo_junk demo_argv "in.png" demo_image 3).
  - simpl. lia.
  - reflexivity.
  - reflexivity.
  - vm_compute. split; [discriminate|reflexivity].
  - vm_compute. discriminate.
  - intros j Hj. assert (j = 0 \/ j = 1 \/ j = 2) as [->|[->| ->]] by lia; reflexivity.
  - vm_compute. discriminate.
Defined.

(** * The blur variants, as the specification describes them

    [main.cpp] only declares [blur5], [blur5_serial] and [blur5_parallel];
    their bodies are not part of the sources at hand. What follows models
    the Stencil Kernel, the Sequential Reference and the Optimized Parallel
    variant from the specification's sections 3, 4.1, 4.2 and 4.3. *)

Module BlurSpec.

(** Modelled from the spec: a store of a variant into its destination
    buffer, the sample index and the value; the variants' bodies are
    missing from the sources. *)
Definition write : Type := Z * Z.

Section Kernel.

(** Modelled from the spec: the Stencil Radius, the fixed neighbourhood
    extent baked into the kernel (2 for a 5-wide window per axis); the body
    of the kernel is missing from the sources. *)
Variable radius : Z.

(** Modelled from the spec: the rounding of [sum / count] to the output
    domain (round-half-up or truncate), fixed once and used by every variant. *)
Variable round : Z -> Z -> Z.

(** Modelled from the spec: sample index =
    (row x width + col) x channels + channel. *)
Definition sample_index (w ch row col c : Z) : Z := (row * w + col) * ch + c.

(** Modelled from the spec: the window around [x] clamped to the valid
    region [0, bound). *)
Definition window (bound x : Z) : list Z :=
  let lo := Z.max 0 (x - radius) in
  let hi := Z.min (bound - 1) (x + radius) in
  seqZ lo (hi - lo + 1).

(** Modelled from the spec: a read of the source buffer by the kernel. *)
Definition sample (src : buffer) (i : Z) : Z :=
  if i <? 0 then 0 else default 0 (src !! Z.to_nat i).

(** Modelled from the spec: the Stencil Kernel, the unweighted average of
    the in-bounds samples of the window in the target's channel, accumulated
    in a wide integer and rounded into the 8-bit domain. *)
Definition stencil (src : buffer) (w h ch row col c : Z) : Z :=
  let nbrs := r ← window h row; k ← window w col; [sample src (sample_index w ch r k c)] in
  round (foldr Z.add 0 nbrs) (Z.of_nat (length nbrs)) mod 256.

(** Modelled from the spec: one store of a worker; an index outside the
    destination (a programming defect the spec calls unreachable) stores
    nothing. *)
Definition store (dst : buffer) (wr : write) : buffer :=
  if wr.1 <? 0 then dst else <[Z.to_nat wr.1 := wr.2]> dst.

(** Modelled from the spec: the stores that fill one output row, one
    kernel application per (col, channel), in column order, channel-minor. *)
Definition row_writes (src : buffer) (w h ch row : Z) : list write :=
  col ← seqZ 0 w; c ← seqZ 0 ch;
  [(sample_index w ch row col c, stencil src w h ch row col c)].

(** Modelled from the spec: the stores that fill the given rows, row
    after row. *)
Definition rows_writes (src : buffer) (w h ch : Z) (rows : list Z) : list write :=
  rows ≫= row_writes src w h ch.

(** Modelled from the spec: the Sequential Reference applies the kernel to
    every (row, col, channel) in strict row-major order. *)
Definition blur5_serial (src dst : buffer) (w h ch : Z) : buffer :=
  foldl store dst (rows_writes src w h ch (seqZ 0 h)).

(** Modelled from the spec: the output rows split into contiguous chunks,
    one per worker, rows / workers each, the remainder handed out one row
    each to the first workers. *)
Definition chunk_size (h workers k : Z) : Z :=
  h / workers + (if k <? h mod workers then 1 else 0).
(** Modelled from the spec: where the contiguous chunk of worker [k]
    starts. *)
Definition chunk_start (h workers k : Z) : Z :=
  k * (h / workers) + Z.min k (h mod workers).
(** Modelled from the spec: the rows of worker [k]. *)
Definition chunk (h workers k : Z) : list Z :=
  seqZ (chunk_start h workers k) (chunk_size h workers k).

(** Modelled from the spec: each worker writes only its assigned rows;
    the stores of worker [k], and of all workers, worker after worker. *)
Definition worker_writes (src : buffer) (w h ch workers k : Z) : list write :=
  rows_writes src w h ch (chunk h workers k).
(** Modelled from the spec: all workers' stores. *)
Definition all_writes (src : buffer) (w h ch workers : Z) : list write :=
  seqZ 0 workers ≫= worker_writes src w h ch workers.

(** Modelled from the spec: the Optimized Parallel variant. The workers run
    unsynchronised, so their stores reach the destination in an order the
    scheduler picks: [order] rearranges the stores of all workers. *)
Definition blur5 (order : list write -> list write)
    (src dst : buffer) (w h ch workers : Z) : buffer :=
  foldl store dst (order (all_writes src w h ch workers)).

(** ** The chunks cover the rows once, in order *)

Lemma chunk_start_next h workers k :
  chunk_start h workers (k + 1) = chunk_start h workers k + chunk_size h workers k.
Proof.
  unfold chunk_start, chunk_size.
  destruct (Z.ltb_spec k (h mod workers)); lia.
Qed.

Lemma chunk_size_nonneg h workers k : 1 <= workers -> 0 <= h -> 0 <= chunk_size h workers k.
Proof.
  intros Hw Hh. unfold chunk_size.
  assert (0 <= h / workers) by (apply Z.div_pos; lia).
  destruct (k <? h mod workers); lia.
Qed.

Lemma chunk_start_nonneg h workers k :
  1 <= workers -> 0 <= h -> 0 <= k -> 0 <= chunk_start h workers k.
Proof.
  intros Hw Hh Hk. unfold chunk_start.
  assert (0 <= h / workers) by (apply Z.div_pos; lia).
  pose proof (Z.mod_pos_bound h workers). nia.
Qed.

Lemma chunk_start_end h workers : 1 <= workers -> chunk_start h workers workers = h.
Proof.
  intros Hw. unfold chunk_start.
  pose proof (Z.mod_pos_bound h workers).
  pose proof (Z.div_mod h workers). lia.
Qed.

Lemma chunks_upto h workers (m : nat) :
  1 <= workers -> 0 <= h ->
  seqZ 0 (Z.of_nat m) ≫= chunk h workers = seqZ 0 (chunk_start h workers (Z.of_nat m)).
Proof.
  intros Hw Hh. induction m as [|m IH].
  - change (Z.of_nat 0) with 0. rewrite (seqZ_nil 0 0) by lia.
    rewrite seqZ_nil; [done|]. unfold chunk_start.
    pose proof (Z.mod_pos_bound h workers). lia.
  - rewrite seqZ_S, bind_app, bind_singleton, IH. simpl.
    replace (Z.of_nat (S m)) with (Z.of_nat m + 1) by lia.
    rewrite chunk_start_next. unfold chunk at 1.
    rewrite seqZ_app; [done| |].
    + apply chunk_start_nonneg; lia.
    + by apply chunk_size_nonneg.
Qed.

Lemma chunks_cover h workers :
  1 <= workers -> 0 <= h -> seqZ 0 workers ≫= chunk h workers = seqZ 0 h.
Proof.
  intros Hw Hh.
  replace (seqZ 0 workers) with (seqZ 0 (Z.of_nat (Z.to_nat workers)))
    by (by rewrite Z2Nat.id by lia).
  rewrite chunks_upto by done. rewrite Z2Nat.id by lia.
  by rewrite chunk_start_end.
Qed.

Lemma bind_bind {A B C} (f : A -> list B) (g : B -> list C) (l : list A) :
  (l ≫= f) ≫= g = l ≫= (fun x => f x ≫= g).
Proof.
  induction l as [|x l IH]; [done|].
  by rewrite !bind_cons, bind_app, IH.
Qed.

(** All workers together issue the stores of the Sequential Reference. *)
Lemma all_writes_serial src w h ch workers :
  1 <= workers -> 0 <= h ->
  all_writes src w h ch workers = rows_writes src w h ch (seqZ 0 h).
Proof.
  intros Hw Hh. unfold all_writes, worker_writes, rows_writes.
  by rewrite <- bind_bind, chunks_cover.
Qed.

(** ** The stores of the Sequential Reference hit every index once *)

Lemma fmap_bind_list {A B C} (f : B -> C) (g : A -> list B) (l : list A) :
  f <$> (l ≫= g) = l ≫= (fun x => f <$> g x).
Proof.
  induction l as [|x l IH]; [done|].
  by rewrite !bind_cons, fmap_app, IH.
Qed.

Lemma bind_singletons {A B} (g : A -> B) (l : list A) : (l ≫= fun x => [g x]) = g <$> l.
Proof. induction l as [|x l IH]; [done|]. rewrite bind_cons, IH. done. Qed.

Lemma seqZ_blocks a (n : nat) m :
  0 <= m ->
  (seqZ a (Z.of_nat n) ≫= fun k => seqZ (k * m) m) = seqZ (a * m) (Z.of_nat n * m).
Proof.
  intros Hm. induction n as [|n IH].
  - change (Z.of_nat 0) with 0. by rewrite !seqZ_nil by lia.
  - rewrite seqZ_S, bind_app, bind_singleton, IH.
    replace (Z.of_nat (S n) * m) with (Z.of_nat n * m + m) by lia.
    rewrite seqZ_app by nia. f_equal. f_equal. lia.
Qed.

Lemma fst_row_writes src w h ch row :
  0 <= w -> 0 <= ch ->
  (row_writes src w h ch row).*1 = seqZ (row * (w * ch)) (w * ch).
Proof.
  intros Hw Hch. unfold row_writes. rewrite fmap_bind_list.
  rewrite (list_bind_ext _ (fun col => seqZ ((row * w + col) * ch) ch) _ (seqZ 0 w));
    [|intros col|done].
  - replace (seqZ 0 w ≫= fun col => seqZ ((row * w + col) * ch) ch)
      with ((Z.add (row * w) <$> seqZ 0 w) ≫= fun k => seqZ (k * ch) ch)
      by (by rewrite list_fmap_bind).
    rewrite fmap_add_seqZ, Z.add_0_r.
    rewrite <- (Z2Nat.id w) by lia. rewrite seqZ_blocks by done.
    f_equal. lia.
  - rewrite fmap_bind_list, (bind_singletons (fun c => sample_index w ch row col c)).
    unfold sample_index.
    replace (fun c => (row * w + col) * ch + c) with (Z.add ((row * w + col) * ch)) by done.
    by rewrite fmap_add_seqZ, Z.add_0_r.
Qed.

Lemma fst_serial_writes src w h ch :
  0 <= w -> 0 <= h -> 0 <= ch ->
  (rows_writes src w h ch (seqZ 0 h)).*1 = seqZ 0 (h * (w * ch)).
Proof.
  intros Hw Hh Hch. unfold rows_writes. rewrite fmap_bind_list.
  rewrite (list_bind_ext _ (fun row => seqZ (row * (w * ch)) (w * ch)) _ (seqZ 0 h));
    [|intros row; by apply fst_row_writes|done].
  rewrite <- (Z2Nat.id h) by lia. rewrite seqZ_blocks by nia. done.
Qed.

Lemma serial_writes_NoDup src w h ch :
  0 <= w -> 0 <= h -> 0 <= ch -> NoDup (rows_writes src w h ch (seqZ 0 h)).*1.
Proof. intros. rewrite fst_serial_writes by done. apply NoDup_seqZ. Qed.

(** ** Stores to distinct indices commute *)

Lemma store_commute dst (a b : write) :
  a.1 <> b.1 -> store (store dst a) b = store (store dst b) a.
Proof.
  intros Hne. unfold store.
  destruct (Z.ltb_spec a.1 0), (Z.ltb_spec b.1 0); try done.
  apply list_insert_insert_ne. lia.
Qed.

Lemma foldl_store_permutation (ws ws' : list write) :
  ws ≡ₚ ws' -> NoDup ws.*1 -> forall dst, foldl store dst ws = foldl store dst ws'.
Proof.
  induction 1 as [|x l l' Hp IH|x y l|l l' l'' Hp1 IH1 Hp2 IH2]; intros Hnd dst.
  - done.
  - simpl. apply IH. rewrite fmap_cons in Hnd. by apply NoDup_cons in Hnd as [_ ?].
  - simpl. rewrite store_commute; [done|].
    rewrite !fmap_cons in Hnd. apply NoDup_cons in Hnd as [Hy _].
    intros Heq. apply Hy. rewrite Heq. apply list_elem_of_here.
  - rewrite IH1 by done. apply IH2. by rewrite <- Hp1.
Qed.

(** C3: for every input buffer, every geometry without a negative extent
    and every worker count of at least 1, whatever order the scheduler lets
    the workers' stores take, the Optimized Parallel variant leaves the
    destination equal to what the Sequential Reference leaves, sample for
    sample. *)
Theorem optimized_parallel_equals_sequential
    (order : list write -> list write) (src dst : buffer) (w h ch workers : Z) :
  1 <= workers -> 0 <= w -> 0 <= h -> 0 <= ch ->
  (forall l, order l ≡ₚ l) ->
  blur5 order src dst w h ch workers = blur5_serial src dst w h ch /\
  forall i : nat,
    blur5 order src dst w h ch workers !! i = blur5_serial src dst w h ch !! i.
Proof.
  intros Hworkers Hw Hh Hch Horder.
  assert (blur5 order src dst w h ch workers = blur5_serial src dst w h ch) as Heq.
  { unfold blur5, blur5_serial. rewrite all_writes_serial by done.
    symmetry. apply foldl_store_permutation.
    - symmetry. apply Horder.
    - by apply serial_writes_NoDup. }
  split; [done|]. intros i. by rewrite Heq.
Qed.

End Kernel.

(** ** The kernel of the lab: a 5x5 window, truncating division *)

(** Modelled from the spec: truncation as the rounding fixed for every
    variant. *)
Definition truncate (sum count : Z) : Z := sum / count.

Definition ramp : buffer := [10; 20; 30; 40; 50; 60; 70; 80; 90; 100; 110; 120].

Example chunks_of_ten_rows : chunk 10 3 <$> seqZ 0 3 = [[0; 1; 2; 3]; [4; 5; 6]; [7; 8; 9]].
Proof. reflexivity. Qed.

Example chunks_more_workers_than_rows : chunk 2 4 <$> seqZ 0 4 = [[0]; [1]; []; []].
Proof. reflexivity. Qed.

Example serial_on_ramp :
  blur5_serial 2 truncate ramp (replicate 12 0) 6 2 1 =
  [50; 55; 60; 70; 75; 80; 50; 55; 60; 70; 75; 80].
Proof. by vm_compute. Qed.

Example parallel_on_ramp_reversed_stores :
  blur5 2 truncate reverse ramp (replicate 12 0) 6 2 1 4 =
  [50; 55; 60; 70; 75; 80; 50; 55; 60; 70; 75; 80].
Proof. by vm_compute. Qed.

Example uniform_image_is_unchanged :
  blur5_serial 2 truncate (replicate 48 10) (replicate 48 0) 4 4 3 = replicate 48 10.
Proof. by vm_compute. Qed.

Example single_pixel_is_unchanged : blur5_serial 2 truncate [77] [0] 1 1 1 = [77].
Proof. by vm_compute. Qed.

Lemma optimized_parallel_witness :
  blur5 2 truncate reverse ramp (replicate 12 0) 6 2 1 4 =
    blur5_serial 2 truncate ramp (replicate 12 0) 6 2 1 /\
  forall i : nat,
    blur5 2 truncate reverse ramp (replicate 12 0) 6 2 1 4 !! i =
      blur5_serial 2 truncate ramp (replicate 12 0) 6 2 1 !! i.
Proof.
  apply (optimized_parallel_equals_sequential 2 truncate reverse ramp (replicate 12 0) 6 2 1 4).
  - lia.
  - lia.
  - lia.
  - lia.
  - intros l. apply reverse_Permutation.
Defined.

End BlurSpec.

(** ** The harness linked against the modelled variants *)

(** blur5 with four workers whose stores land in reverse, blur5_serial, and
    for blur5_parallel one worker per row. *)
Definition spec_blur (v : variant) (src dst : buffer) (w h ch i : Z) : Z :=
  let out :=
    match v with
    | Blur5 => BlurSpec.blur5 2 BlurSpec.truncate reverse src dst w h ch 4
    | Blur5_serial => BlurSpec.blur5_serial 2 BlurSpec.truncate src dst w h ch
    | Blur5_parallel => BlurSpec.blur5 2 BlurSpec.truncate id src dst w h ch h
    end in
  default 0 (out !! Z.to_nat i).

Example harness_accepts_the_modelled_variants :
  let r := run demo_load (fun _ => true) spec_blur demo_wtime demo_junk demo_argv in
  verdicts_of (trace r.1) = [true] /\
  files r.1 = [("out.png", Image [3; 3; 3; 3; 3; 3] 3 2 1)] /\
  r.2 = Ret 0.
Proof. by vm_compute. Qed.

(** * More of [main]: arguments, storage, faults *)






Lemma only_loads_stderr evs : only_loads evs -> stderr_of evs = [].
Proof. induction 1 as [|e evs (j & [->| ->]) _ IH]; simpl; auto. Qed.

Lemma stderr_of_app tr1 tr2 : stderr_of (tr1 ++ tr2) = stderr_of tr1 ++ stderr_of tr2.
Proof. apply omap_app. Qed.

Lemma loop_end_fault_oversized o1 o2 n evs f :
  loop_end o1 o2 n 0 evs (Fault f) -> INT_MAX < n.
Proof.
  intros H. remember (Fault f) as r eqn:Hr.
  destruct H; try discriminate. done.
Qed.

Lemma scan_pairs_elem i m b j :
  (b, j) ∈ scan_pairs i m -> (b = Output1 \/ b = Output2) /\ i <= j < m.
Proof.
  unfold scan_pairs. intros Hin.
  apply list_elem_of_bind in Hin as (k & Hin & Hk).
  apply elem_of_seqZ in Hk.
  apply elem_of_cons in Hin as [Heq|Hin].
  - injection Heq as -> ->. split; [auto|lia].
  - apply list_elem_of_singleton in Hin. injection Hin as -> ->. split; [auto|lia].
Qed.

Lemma scan_pairs_length i m :
  i <= m -> Z.of_nat (length (scan_pairs i m)) = 2 * (m - i).
Proof.
  intros Hm. unfold scan_pairs.
  assert (forall l : list Z,
            length (l ≫= fun j => [(Output1, j); (Output2, j)]) = (2 * length l)%nat) as Hlen.
  { induction l as [|x l IH]; [done|]. rewrite bind_cons, length_app, IH. simpl. lia. }
  rewrite Hlen, length_seqZ. lia.
Qed.

Section Coverage.

Variable load : string -> option image.
Variable writable : string -> bool.
Variable blur : variant -> buffer -> buffer -> Z -> Z -> Z -> Z -> Z.
Variable wtime : nat -> float.
Variable junk : buf -> Z -> Z.

(** Case analysis on how the run on [argv] ends. *)
Ltac ending_cases argv :=
  let H := fresh "Hend" in
  pose proof (run_ends load writable blur wtime junk argv) as H;
  destruct (run load writable blur wtime junk argv) as [w r];
  cbn [fst snd] in *;
  destruct H; simplify_eq;
  cbn [trace heap files loaded ticks extend before_check init_world app] in *.

(** X3: with at least two positional arguments a run is determined by
    [argv[1]] and [argv[2]] alone: the program name and any further
    arguments change nothing, so more than two positional arguments are
    accepted and no usage message is written. *)
Theorem only_the_two_paths_matter (a0 a0' a1 a2 : string) (rest rest' : list string) :
  run load writable blur wtime junk (a0 :: a1 :: a2 :: rest) =
    run load writable blur wtime junk (a0' :: a1 :: a2 :: rest') /\
  stderr_of (trace (run load writable blur wtime junk (a0 :: a1 :: a2 :: rest)).1) = [].
Proof.
  split.
  - unfold run, main.
    destruct (Z.ltb_spec (Z.of_nat (length (a0 :: a1 :: a2 :: rest))) 3) as [H|_];
      [simpl in H; lia|].
    destruct (Z.ltb_spec (Z.of_nat (length (a0' :: a1 :: a2 :: rest'))) 3) as [H|_];
      [simpl in H; lia|].
    unfold argv_at. simpl lookup. reflexivity.
  - ending_cases (a0 :: a1 :: a2 :: rest);
      try match goal with H : (length _ < 3)%nat |- _ => simpl in H; lia end;
      try match goal with H : loop_end _ _ _ _ _ _ |- _ =>
        pose proof (loop_end_only_loads _ _ _ _ _ _ H) as Hloads end;
      rewrite ?stderr_of_app, ?(only_loads_stderr evs) by done; reflexivity.
Qed.

(** X4: a sample count [w*h*ch] that is negative as the [long] the source
    computes ends the run at the first [new[]]: no blur variant is called,
    nothing is printed, nothing is written. *)
Theorem negative_sample_count_aborts_at_allocation
    (argv : list string) (p : string) (img : image) :
  (3 <= length argv)%nat -> argv !! 1%nat = Some p -> load p = Some img ->
  nsamples img < 0 ->
  (run load writable blur wtime junk argv).2 = Fault BadAlloc /\
  trace (run load writable blur wtime junk argv).1 =
    [EvReadImage p; EvNew Output1 (nsamples img)] /\
  calls_of (trace (run load writable blur wtime junk argv).1) = [] /\
  stdout_of (trace (run load writable blur wtime junk argv).1) = [] /\
  files (run load writable blur wtime junk argv).1 = [].
Proof.
  intros Hargc Hp Hload Hn. ending_cases argv; try lia. done.
Qed.

(** X5: [main] never uses a pointer that holds no object, and it goes out
    of bounds in two situations only: the read of [output1[INT_MIN]] when the
    sample count exceeds [INT_MAX] (the [int] counter wrapped), and the
    [memcpy] into an input buffer that holds fewer than [w*h*ch] samples. *)
Theorem faults_of_main (argv : list string) :
  (run load writable blur wtime junk argv).2 <> Fault NullPointer /\
  forall b i,
    (run load writable blur wtime junk argv).2 = Fault (OutOfBounds b i) ->
    exists p img,
      argv !! 1%nat = Some p /\ load p = Some img /\
      ((b = Output1 /\ i = INT_MIN /\ INT_MAX < nsamples img) \/
       (b = Data /\ i = Z.of_nat (length (pixels img)) /\
        Z.of_nat (length (pixels img)) < nsamples img)).
Proof.
  ending_cases argv; (split; [try discriminate|intros b i Hf; try discriminate]).
  - match goal with H : loop_end _ _ _ _ _ _ |- _ => apply loop_end_fault in H as Hf end.
    congruence.
  - match goal with H : loop_end _ _ _ _ _ _ |- _ =>
      pose proof (loop_end_fault_oversized _ _ _ _ _ H) as Hbig;
      apply loop_end_fault in H as -> end.
    injection Hf as <- <-. exists p, img.
    split; [done|]. split; [done|]. left. done.
  - injection Hf as <- <-. exists p, img.
    split; [done|]. split; [done|]. right. done.
Qed.

(** X6: for a sample count within [int], every element the comparison
    reads lies inside [output1] or [output2], at an index from 0 up to but
    not including [w*h*ch], and the loop reads at most [2*w*h*ch] elements. *)
Theorem comparison_reads_stay_in_bounds (argv : list string) (p : string) (img : image) :
  (3 <= length argv)%nat -> argv !! 1%nat = Some p -> load p = Some img ->
  nsamples img <= INT_MAX ->
  (forall b i, (b, i) ∈ loads_of (trace (run load writable blur wtime junk argv).1) ->
               (b = Output1 \/ b = Output2) /\ 0 <= i < nsamples img) /\
  Z.of_nat (length (loads_of (trace (run load writable blur wtime junk argv).1)))
    <= 2 * Z.max 0 (nsamples img).
Proof.
  intros Hargc Hp Hload Hmax.
  destruct (Z.lt_ge_cases (nsamples img) 0) as [Hneg|Hn].
  { destruct (run_no_comparison load writable blur wtime junk argv p img) as [-> _];
      try done.
    split; [|simpl; lia]. intros b i Hin. by apply not_elem_of_nil in Hin. }
  destruct (run_compares load writable blur wtime junk argv p img)
    as (evs & rl & Hend & -> & _); try done.
  destruct (loop_end_int_range _ _ _ _ _ Hend Hmax) as [v ->].
  assert (exists m, 0 <= m <= nsamples img /\ evs = scan_loads 0 m) as (m & Hm & ->).
  { destruct v.
    - apply loop_end_correct in Hend as (_ & _ & ->). exists (nsamples img). split; [lia|done].
    - apply loop_end_incorrect in Hend as (k & Hk & _ & _ & ->). exists (k + 1).
      split; [lia|done]. }
  rewrite loads_of_scan. split.
  - intros b i Hin. apply scan_pairs_elem in Hin as [Hb Hi]. split; [done|lia].
  - rewrite scan_pairs_length by lia. lia.
Qed.


(** X8: in a run that returns 0 the [memcpy] overwrites the first
    [w*h*ch] samples of the input buffer with those of [output1] and leaves
    the rest alone: when the wrapper's buffer holds more samples than
    [w*h*ch], the image stored keeps the length of that buffer and the
    samples from index [w*h*ch] on as they were loaded. *)
Theorem memcpy_overwrites_the_first_samples_only
    (argv : list string) (p q : string) (img : image) :
  argv !! 1%nat = Some p -> argv !! 2%nat = Some q -> load p = Some img ->
  (run load writable blur wtime junk argv).2 = Ret 0 ->
  let w := (run load writable blur wtime junk argv).1 in
  exists stored : buffer,
    files w = [(q, Image stored (width img) (height img) (channels img))] /\
    heap_get (heap w) Data = Some stored /\
    length stored = length (pixels img) /\
    (forall i : nat, (i < Z.to_nat (nsamples img))%nat ->
                     stored !! i = output1_of blur junk img !! i) /\
    (forall i : nat, (Z.to_nat (nsamples img) <= i)%nat -> stored !! i = pixels img !! i).
Proof.
  intros Hp Hq Hload Hret w. subst w. revert Hret.
  ending_cases argv; intros Hret; try discriminate.
  match goal with H : 0 <= nsamples img |- _ =>
    pose proof (length_output1 blur junk img H) as Hlen1 end.
  exists (stored_pixels blur junk img). unfold stored_image, stored_pixels.
  assert (length (take (Z.to_nat (nsamples img)) (output1_of blur junk img))
          = Z.to_nat (nsamples img)) as Htake by (apply length_take_le; lia).
  split; [done|]. split; [done|]. split; [|split].
  - rewrite length_app, Htake, length_drop. lia.
  - intros i Hi. rewrite lookup_app_l by lia. by apply lookup_take_lt.
  - intros i Hi. rewrite lookup_app_r by lia. rewrite Htake, lookup_drop.
    f_equal. lia.
Qed.


(** X11: in a run that returns 0 on an input buffer of exactly [w*h*ch]
    samples, the verdict printed is "correct" exactly when the image stored
    at [argv[2]] holds the samples blur5_serial produced: the file is
    blur5's output, and the verdict says whether that is the reference. *)
Theorem correct_verdict_certifies_the_stored_image
    (argv : list string) (p q : string) (img : image) :
  argv !! 1%nat = Some p -> argv !! 2%nat = Some q -> load p = Some img ->
  Z.of_nat (length (pixels img)) = nsamples img ->
  (run load writable blur wtime junk argv).2 = Ret 0 ->
  let w := (run load writable blur wtime junk argv).1 in
  verdicts_of (trace w) = [true] <->
  files w = [(q, Image (output2_of blur junk img) (width img) (height img) (channels img))].
Proof.
  intros Hp Hq Hload Hlen Hret w. subst w. revert Hret.
  ending_cases argv; intros Hret; try discriminate.
  match goal with H : loop_end _ _ _ _ _ _ |- _ =>
    pose proof (loop_end_only_loads _ _ _ _ _ _ H) as Hloads; rename H into Hend end.
  match goal with H : 0 <= nsamples img |- _ =>
    pose proof (length_output1 blur junk img H) as Hlen1;
    pose proof (length_output2 blur junk img H) as Hlen2 end.
  rewrite !verdicts_of_app, (only_loads_verdicts evs), prologue_verdicts by done.
  assert (stored_pixels blur junk img = output1_of blur junk img) as Hstored.
  { unfold stored_pixels. rewrite take_ge, drop_ge by lia. apply app_nil_r. }
  unfold stored_image. rewrite Hstored. split.
  - intros Hv. assert (v = true) as -> by (by destruct v).
    apply loop_end_correct in Hend as (Hag & _ & _).
    do 3 f_equal. apply list_eq. intros i.
    destruct (decide (i < Z.to_nat (nsamples img))%nat) as [Hi|Hi].
    + specialize (Hag (Z.of_nat i)). rewrite Nat2Z.id in Hag. apply Hag. lia.
    + rewrite !lookup_ge_None_2; [done|lia|lia].
  - intros Hfiles. assert (output1_of blur junk img = output2_of blur junk img) as Heq
      by congruence.
    destruct v; [done|].
    apply loop_end_incorrect in Hend as (k & _ & _ & Hne & _).
    by rewrite Heq in Hne.
Qed.

End Coverage.

(** X10: when what a blur variant leaves in its destination does not
    depend on what the destination held before, a run does not depend on the
    indeterminate contents of the freshly allocated output buffers: no sample
    that nobody wrote reaches the verdict, the image stored or the trace. *)
Theorem fresh_storage_does_not_show
    (load : string -> option image) (writable : string -> bool)
    (blur : variant -> buffer -> buffer -> Z -> Z -> Z -> Z -> Z)
    (wtime : nat -> float) (junk junk' : buf -> Z -> Z) (argv : list string) :
  (forall v s d d' w h ch i, blur v s d w h ch i = blur v s d' w h ch i) ->
  run load writable blur wtime junk argv = run load writable blur wtime junk' argv.
Proof.
  intros Hblur.
  assert (forall v s b b' n w h ch, 0 <= n ->
            after_call blur v s (fresh junk b n) w h ch
            = after_call blur v s (fresh junk' b' n) w h ch) as Hcall.
  { intros v s b b' n w h ch Hn. unfold after_call.
    rewrite !length_fresh by done. apply list_fmap_ext. intros _ i _. apply Hblur. }
  assert (forall v s d d' w h ch, length d = length d' ->
            after_call blur v s d w h ch = after_call blur v s d' w h ch) as Hcall'.
  { intros v s d d' w h ch Hlen. unfold after_call. rewrite Hlen.
    apply list_fmap_ext. intros _ i _. apply Hblur. }
  destruct argv as [|a0 [|a1 [|a2 rest]]]; try reflexivity.
  destruct (load a1) as [img|] eqn:Hload.
  - destruct (Z.ltb_spec (nsamples img) 0) as [Hneg|Hn].
    + assert ((nsamples img <? 0) = true) as Hlt by (apply Z.ltb_lt; lia).
      unfold run, main.
      destruct (Z.ltb_spec (Z.of_nat (length (a0 :: a1 :: a2 :: rest))) 3) as [H|_];
        [simpl in H; lia|].
      unfold argv_at. simpl lookup. unfold readImage. rewrite Hload.
      run_step. fold (nsamples img). rewrite Hlt. reflexivity.
    + rewrite !(run_prologue _ _ _ _ _ _ _ _ _ _ Hload Hn). f_equal.
      unfold before_check, output1_of, output2_of, output3_of.
      rewrite (Hcall Blur5 _ Output1 Output1), (Hcall Blur5_serial _ Output2 Output2) by done.
      rewrite (Hcall' Blur5_parallel _
                 (after_call blur Blur5 (pixels img) (fresh junk Output3 (nsamples img))
                             (width img) (height img) (channels img))
                 (after_call blur Blur5 (pixels img) (fresh junk' Output3 (nsamples img))
                             (width img) (height img) (channels img)));
        [done|].
      by rewrite (Hcall Blur5 _ Output3 Output3).
  - unfold run, main.
    destruct (Z.ltb_spec (Z.of_nat (length (a0 :: a1 :: a2 :: rest))) 3) as [H|_];
      [simpl in H; lia|].
    unfold argv_at. simpl lookup. unfold readImage. rewrite Hload. reflexivity.
Qed.

(** ** Concrete runs for the properties above *)

(** A wrapper that reports a negative width. *)
Definition negative_image : image := Image [] (-1) 1 1.
Definition negative_load (p : string) : option image := Some negative_image.

(** A wrapper whose buffer holds two samples more than [w*h*ch]. *)
Definition padded_image : image := Image [1; 2; 3; 4; 5; 6; 9; 9] 3 2 1.
Definition padded_load (p : string) : option image := Some padded_image.

Definition other_junk (b : buf) (i : Z) : Z := 255.

Lemma negative_sample_count_witness :
  let r := run negative_load (fun _ => true) copy_blur demo_wtime demo_junk demo_argv in
  r.2 = Fault BadAlloc /\
  trace r.1 = [EvReadImage "in.png"; EvNew Output1 (nsamples negative_image)] /\
  calls_of (trace r.1) = [] /\ stdout_of (trace r.1) = [] /\ files r.1 = [].
Proof.
  apply (negative_sample_count_aborts_at_allocation negative_load (fun _ => true) copy_blur
           demo_wtime demo_junk demo_argv "in.png" negative_image).
  - simpl. lia.
  - reflexivity.
  - reflexivity.
  - vm_compute. reflexivity.
Defined.

Lemma comparison_reads_witness :
  (forall b i, (b, i) ∈ loads_of (trace good_run.1) ->
               (b = Output1 \/ b = Output2) /\ 0 <= i < nsamples demo_image) /\
  Z.of_nat (length (loads_of (trace good_run.1))) <= 2 * Z.max 0 (nsamples demo_image).
Proof.
  apply (comparison_reads_stay_in_bounds demo_load (fun _ => true) copy_blur demo_wtime
           demo_junk demo_argv "in.png" demo_image).
  - simpl. lia.
  - reflexivity.
  - reflexivity.
  - vm_compute. discriminate.
Defined.


Example padded_run_stores :
  files (run padded_load (fun _ => true) seeded_bug_blur demo_wtime demo_junk demo_argv).1
  = [("out.png", Image [1; 2; 3; 0; 0; 0; 9; 9] 3 2 1)].
Proof. by vm_compute. Qed.

Lemma memcpy_frame_witness :
  let w := (run padded_load (fun _ => true) seeded_bug_blur demo_wtime demo_junk demo_argv).1 in
  exists stored : buffer,
    files w = [("out.png", Image stored 3 2 1)] /\
    heap_get (heap w) Data = Some stored /\
    length stored = 8%nat /\
    (forall i : nat, (i < Z.to_nat (nsamples padded_image))%nat ->
                     stored !! i = output1_of seeded_bug_blur demo_junk padded_image !! i) /\
    (forall i : nat, (Z.to_nat (nsamples padded_image) <= i)%nat ->
                     stored !! i = pixels padded_image !! i).
Proof.
  apply (memcpy_overwrites_the_first_samples_only padded_load (fun _ => true) seeded_bug_blur
           demo_wtime demo_junk demo_argv "in.png" "out.png" padded_image).
  - reflexivity.
  - reflexivity.
  - reflexivity.
  - vm_compute. reflexivity.
Defined.

Lemma fresh_storage_witness :
  run demo_load (fun _ => true) copy_blur demo_wtime demo_junk demo_argv =
  run demo_load (fun _ => true) copy_blur demo_wtime other_junk demo_argv.
Proof.
  apply (fresh_storage_does_not_show demo_load (fun _ => true) copy_blur demo_wtime
           demo_junk other_junk demo_argv).
  intros v s d d' w h ch i. reflexivity.
Defined.

(** The hypothesis of X10 is needed: the seeded blur5 leaves a row of its
    destination as it found it, and what was there reaches the stored image. *)
Example fresh_storage_shows_without_it :
  files (run demo_load (fun _ => true) seeded_bug_blur demo_wtime demo_junk demo_argv).1 <>
  files (run demo_load (fun _ => true) seeded_bug_blur demo_wtime other_junk demo_argv).1.
Proof. vm_compute. intros H. discriminate H. Qed.

Lemma correct_verdict_witness :
  verdicts_of (trace good_run.1) = [true] <->
  files good_run.1 =
    [("out.png", Image (output2_of copy_blur demo_junk demo_image) 3 2 1)].
Proof.
  apply (correct_verdict_certifies_the_stored_image demo_load (fun _ => true) copy_blur
           demo_wtime demo_junk demo_argv "in.png" "out.png" demo_image).
  - reflexivity.
  - reflexivity.
  - reflexivity.
  - reflexivity.
  - vm_compute. reflexivity.
Defined.
